(** * crypto.ts: a shallow embedding and its properties

    The module under study (src/crypto.ts) is a thin layer over the Node
    platform: [Buffer] for base64, [TextEncoder]/[TextDecoder] for UTF-8 and
    [webcrypto.subtle] for RSA-OAEP and AES-CBC.  The embedding keeps the
    module's functions one to one and gives the platform calls they make an
    executable meaning:

    - base64 as Node's [Buffer] does it (strict encoder, forgiving decoder);
    - UTF-8 as the WHATWG Encoding standard defines [TextEncoder] and a
      non-fatal [TextDecoder];
    - AES (FIPS 197) in CBC mode with PKCS#7 padding, as WebCrypto's AES-CBC;
    - RSA-OAEP through the interface [RsaProvider] and its contract
      [RsaContract];
    - the platform's entropy source as a tape of bytes that calls consume. *)

From Stdlib Require Import List Arith NArith ZArith Lia Bool Btauto String Ascii.
From Stdlib Require Import Strings.Byte.
Import ListNotations.

Local Open Scope N_scope.

Set Implicit Arguments.

(* ------------------------------------------------------------------ *)
(** ** Bytes and JavaScript strings *)

Module Bytes.

Definition byte_of_N (n : N) : byte :=
  match Byte.of_N (n mod 256) with
  | Some b => b
  | None => x00
  end.

Definition bxor (a b : byte) : byte :=
  byte_of_N (N.lxor (Byte.to_N a) (Byte.to_N b)).

Definition xor_bytes (u v : list byte) : list byte :=
  map (fun p => bxor (fst p) (snd p)) (combine u v).

Definition xor4 (p q r s : byte) : byte := bxor (bxor (bxor p q) r) s.

(** The 256 bytes, in order. *)
Definition all_bytes : list byte :=
  map (fun n => byte_of_N (N.of_nat n)) (seq 0 256).

(** Decidable quantification over bytes. *)
Definition forall_byte (f : byte -> bool) : bool := forallb f all_bytes.

End Bytes.
Import Bytes.

(** A JavaScript string is a sequence of UTF-16 code units. *)
Definition jsstring := list N.

(** Code units of an ASCII literal. *)
Fixpoint js (s : string) : jsstring :=
  match s with
  | EmptyString => []
  | String c r => N_of_ascii c :: js r
  end.

(* ------------------------------------------------------------------ *)
(** ** Node's Buffer: base64 *)

Module Base64.

(** Character of a sextet in the standard alphabet. *)
Definition b64_char (x : N) : N :=
  if x <? 26 then 65 + x
  else if x <? 52 then 97 + (x - 26)
  else if x <? 62 then 48 + (x - 52)
  else if x =? 62 then 43
  else 47.

(** Sextet of a character, given as a byte; Node's table also accepts the
    URL-safe characters '-' and '_'.  Any other byte is not a base64
    character. *)
Definition unbase64 (c : N) : option N :=
  if (65 <=? c) && (c <=? 90) then Some (c - 65)
  else if (97 <=? c) && (c <=? 122) then Some (c - 97 + 26)
  else if (48 <=? c) && (c <=? 57) then Some (c - 48 + 52)
  else if (c =? 43) || (c =? 45) then Some 62
  else if (c =? 47) || (c =? 95) then Some 63
  else None.

Definition pad_char : N := 61.

(** [buf.toString("base64")]: three bytes to four characters, the tail
    padded with '='. *)
Fixpoint to_base64 (bs : list byte) : jsstring :=
  match bs with
  | [] => []
  | [a] =>
      let a := Byte.to_N a in
      [ b64_char (N.shiftr a 2);
        b64_char (N.shiftl (N.land a 3) 4);
        pad_char; pad_char ]
  | [a; b] =>
      let a := Byte.to_N a in
      let b := Byte.to_N b in
      [ b64_char (N.shiftr a 2);
        b64_char (N.lor (N.shiftl (N.land a 3) 4) (N.shiftr b 4));
        b64_char (N.shiftl (N.land b 15) 2);
        pad_char ]
  | a :: b :: c :: rest =>
      let a := Byte.to_N a in
      let b := Byte.to_N b in
      let c := Byte.to_N c in
      b64_char (N.shiftr a 2)
      :: b64_char (N.lor (N.shiftl (N.land a 3) 4) (N.shiftr b 4))
      :: b64_char (N.lor (N.shiftl (N.land b 15) 2) (N.shiftr c 6))
      :: b64_char (N.land c 63)
      :: to_base64 rest
  end.

(** The decoder reads a UTF-16 code unit through its low byte
    ([static_cast<uint8_t>]): U+0141 is read as 'A', U+D83D as '='. *)
Definition low_byte (c : N) : N := c mod 256.

(** [Buffer.from(s, "base64")]: Node's decoder never rejects its input.
    It walks the string keeping the position in the current group of four
    ([phase]) and the previous sextet ([hi]); a code unit whose low byte is
    outside the alphabet is skipped, and the first one whose low byte is
    '=' ends the decoding. *)
Fixpoint from_base64_loop (s : jsstring) (phase : nat) (hi : N) : list byte :=
  match s with
  | [] => []
  | u :: rest =>
      let c := low_byte u in
      match unbase64 c with
      | Some lo =>
          match phase with
          | O => from_base64_loop rest 1 lo
          | 1%nat =>
              byte_of_N (N.lor (N.shiftl (N.land hi 63) 2)
                               (N.shiftr (N.land lo 48) 4))
              :: from_base64_loop rest 2 lo
          | 2%nat =>
              byte_of_N (N.lor (N.shiftl (N.land hi 15) 4)
                               (N.shiftr (N.land lo 60) 2))
              :: from_base64_loop rest 3 lo
          | _ =>
              byte_of_N (N.lor (N.shiftl (N.land hi 3) 6) (N.land lo 63))
              :: from_base64_loop rest 0 lo
          end
      | None =>
          if c =? pad_char then [] else from_base64_loop rest phase hi
      end
  end.

Definition from_base64 (s : jsstring) : list byte := from_base64_loop s 0 0.

(** The alphabets of RFC 4648, the standard one (section 4) and the
    URL-safe one (section 5): the value of a character is its place in the
    alphabet. *)
Definition standard_alphabet : jsstring :=
  js "ABCDEFGHIJKLMNOPQRSTUVWXYZabcdefghijklmnopqrstuvwxyz0123456789+/".

Definition url_safe_alphabet : jsstring :=
  js "ABCDEFGHIJKLMNOPQRSTUVWXYZabcdefghijklmnopqrstuvwxyz0123456789-_".

Fixpoint index_of (c : N) (l : list N) : option N :=
  match l with
  | [] => None
  | x :: rest =>
      if c =? x then Some 0
      else match index_of c rest with
           | Some i => Some (N.succ i)
           | None => None
           end
  end.

Definition rfc4648_value (c : N) : option N :=
  match index_of c standard_alphabet with
  | Some v => Some v
  | None => index_of c url_safe_alphabet
  end.

Definition in_alphabet (c : N) : bool :=
  match rfc4648_value c with
  | Some _ => true
  | None => false
  end.

(** The part of a string that comes before its first '='. *)
Fixpoint before_pad (s : jsstring) : jsstring :=
  match s with
  | [] => []
  | c :: rest => if c =? pad_char then [] else c :: before_pad rest
  end.

(** The characters a forgiving reader takes from a string: of the low
    bytes of its code units, those before the first '=' that are in the
    alphabets. *)
Definition significant (s : jsstring) : jsstring :=
  filter in_alphabet (before_pad (map low_byte s)).

(** Standard base64 (RFC 4648, section 4): characters of the standard
    alphabet, then at most two '=', a multiple of four in all. *)
Definition is_standard_char (c : N) : bool :=
  ((65 <=? c) && (c <=? 90)) || ((97 <=? c) && (c <=? 122))
  || ((48 <=? c) && (c <=? 57)) || (c =? 43) || (c =? 47).

Definition valid_base64 (s : jsstring) : bool :=
  let body := before_pad s in
  let tail := skipn (List.length body) s in
  (List.length s mod 4 =? 0)%nat
  && forallb is_standard_char body
  && forallb (N.eqb pad_char) tail
  && (List.length tail <=? 2)%nat.

(** The four sextets of a group of three bytes. *)
Definition sextet1 (a : byte) : N := N.shiftr (Byte.to_N a) 2.
Definition sextet2 (a b : byte) : N :=
  N.lor (N.shiftl (N.land (Byte.to_N a) 3) 4) (N.shiftr (Byte.to_N b) 4).
Definition sextet3 (b c : byte) : N :=
  N.lor (N.shiftl (N.land (Byte.to_N b) 15) 2) (N.shiftr (Byte.to_N c) 6).
Definition sextet4 (c : byte) : N := N.land (Byte.to_N c) 63.

Definition opt_N_eqb (x y : option N) : bool :=
  match x, y with
  | Some u, Some v => u =? v
  | None, None => true
  | _, _ => false
  end.

(** The sixty-four sextets, in order. *)
Definition sextets : list N := map N.of_nat (seq 0 64).

(** RFC 4648 read as a specification, to compare the decoder with.  The
    characters stand for 6-bit values; written one after the other, most
    significant bit first, they make a string of bits, and byte [k] of the
    data is bits [8k] to [8k + 7] of it: they lie in the sextets
    [j = 4k / 3] and [j + 1], whose twelve bits are shifted right by
    [4 - 2 (k mod 3)].  Bits left over at the end, fewer than eight, are
    dropped. *)
Definition sextet_value (c : N) : N :=
  match rfc4648_value c with
  | Some v => v
  | None => 0
  end.

Definition rfc4648_byte (vs : list N) (k : nat) : byte :=
  let j := (4 * k / 3)%nat in
  byte_of_N (N.shiftr (64 * nth j vs 0 + nth (S j) vs 0)
                      (N.of_nat (4 - 2 * (k mod 3)))).

Definition rfc4648_decode (vs : list N) : list byte :=
  map (rfc4648_byte vs) (seq 0 (3 * List.length vs / 4)).

End Base64.

(* ------------------------------------------------------------------ *)
(** ** TextEncoder and TextDecoder: UTF-8 (WHATWG Encoding) *)

Module Utf8.

Definition is_high_surrogate (u : N) : bool := (0xD800 <=? u) && (u <=? 0xDBFF).
Definition is_low_surrogate (u : N) : bool := (0xDC00 <=? u) && (u <=? 0xDFFF).

Definition replacement : N := 0xFFFD.
Definition bom : N := 0xFEFF.

(** Code points of a JavaScript string as [TextEncoder.encode] reads it:
    a surrogate pair is one code point, a lone surrogate becomes U+FFFD. *)
Fixpoint code_points (s : jsstring) : list N :=
  match s with
  | [] => []
  | u :: rest =>
      if is_high_surrogate u then
        match rest with
        | l :: rest' =>
            if is_low_surrogate l
            then (0x10000 + N.shiftl (u - 0xD800) 10 + (l - 0xDC00))
                 :: code_points rest'
            else replacement :: code_points rest
        | [] => [replacement]
        end
      else if is_low_surrogate u then replacement :: code_points rest
      else u :: code_points rest
  end.

(** UTF-8 encoder, one code point. *)
Definition encode_code_point (cp : N) : list byte :=
  let cont (x : N) := byte_of_N (N.lor 0x80 (N.land x 0x3F)) in
  if cp <=? 0x7F then [byte_of_N cp]
  else if cp <=? 0x7FF then
    [byte_of_N (N.shiftr cp 6 + 0xC0); cont cp]
  else if cp <=? 0xFFFF then
    [byte_of_N (N.shiftr cp 12 + 0xE0); cont (N.shiftr cp 6); cont cp]
  else
    [byte_of_N (N.shiftr cp 18 + 0xF0); cont (N.shiftr cp 12);
     cont (N.shiftr cp 6); cont cp].

(** [new TextEncoder().encode(s)] *)
Definition TextEncoder_encode (s : jsstring) : list byte :=
  flat_map encode_code_point (code_points s).

(** State of the UTF-8 decoder. *)
Record decoder := Decoder {
  code_point : N;
  bytes_seen : N;
  bytes_needed : N;
  lower_boundary : N;
  upper_boundary : N
}.

Definition decoder_init : decoder := Decoder 0 0 0 0x80 0xBF.

(** A byte read while no sequence is open: the code points emitted and the
    next state. *)
Definition lead_byte (b : N) : list N * decoder :=
  if b <=? 0x7F then ([b], decoder_init)
  else if (0xC2 <=? b) && (b <=? 0xDF) then
    ([], Decoder (N.land b 0x1F) 0 1 0x80 0xBF)
  else if (0xE0 <=? b) && (b <=? 0xEF) then
    ([], Decoder (N.land b 0xF) 0 2
                 (if b =? 0xE0 then 0xA0 else 0x80)
                 (if b =? 0xED then 0x9F else 0xBF))
  else if (0xF0 <=? b) && (b <=? 0xF4) then
    ([], Decoder (N.land b 0x7) 0 3
                 (if b =? 0xF0 then 0x90 else 0x80)
                 (if b =? 0xF4 then 0x8F else 0xBF))
  else ([replacement], decoder_init).

(** The decoder in replacement mode: a malformed sequence yields U+FFFD,
    the offending byte is read again as a lead byte, and input that ends
    inside a sequence yields a final U+FFFD.  It never fails. *)
Fixpoint decode_loop (bs : list byte) (st : decoder) : list N :=
  match bs with
  | [] => if bytes_needed st =? 0 then [] else [replacement]
  | b :: rest =>
      let b := Byte.to_N b in
      if bytes_needed st =? 0 then
        fst (lead_byte b) ++ decode_loop rest (snd (lead_byte b))
      else if (lower_boundary st <=? b) && (b <=? upper_boundary st) then
        let cp := N.lor (N.shiftl (code_point st) 6) (N.land b 0x3F) in
        if bytes_seen st + 1 =? bytes_needed st
        then cp :: decode_loop rest decoder_init
        else decode_loop rest
               (Decoder cp (bytes_seen st + 1) (bytes_needed st) 0x80 0xBF)
      else
        replacement
        :: fst (lead_byte b) ++ decode_loop rest (snd (lead_byte b))
  end.

(** With [ignoreBOM] false (the default) a leading U+FEFF is dropped. *)
Definition strip_bom (cps : list N) : list N :=
  match cps with
  | c :: rest => if c =? bom then rest else cps
  | [] => []
  end.

(** Code units of a code point in a JavaScript string. *)
Definition code_units (cp : N) : list N :=
  if cp <? 0x10000 then [cp]
  else [0xD800 + N.shiftr (cp - 0x10000) 10;
        0xDC00 + N.land (cp - 0x10000) 0x3FF].

(** [new TextDecoder().decode(bytes)]: UTF-8, not fatal, BOM not kept. *)
Definition TextDecoder_decode (bs : list byte) : jsstring :=
  flat_map code_units (strip_bom (decode_loop bs decoder_init)).

(** Well-formed text: code units in range, surrogates only in pairs. *)
Fixpoint well_formed (s : jsstring) : bool :=
  match s with
  | [] => true
  | u :: rest =>
      if is_high_surrogate u then
        match rest with
        | l :: rest' => is_low_surrogate l && well_formed rest'
        | [] => false
        end
      else negb (is_low_surrogate u) && (u <? 0x10000) && well_formed rest
  end.

Definition starts_with_bom (s : jsstring) : bool :=
  match s with
  | u :: _ => u =? bom
  | [] => false
  end.

(** Every element is a 16-bit code unit. *)
Definition code_units_ok (s : jsstring) : bool :=
  forallb (fun u => u <? 0x10000) s.

(** Unicode scalar values: code points that are not surrogates. *)
Definition is_scalar (cp : N) : bool :=
  (cp <? 0x110000) && negb ((0xD800 <=? cp) && (cp <=? 0xDFFF)).

(** The continuation byte carrying the low six bits of [x]. *)
Definition continuation (x : N) : byte :=
  byte_of_N (N.lor 0x80 (N.land x 0x3F)).

Fixpoint bytes_eqb (u v : list byte) : bool :=
  match u, v with
  | [], [] => true
  | a :: u', b :: v' => Byte.eqb a b && bytes_eqb u' v'
  | _, _ => false
  end.

(** A test that accepts no bytes but UTF-8: encoding what the decoder read
    gives the bytes back. *)
Definition valid_utf8 (bs : list byte) : bool :=
  bytes_eqb (flat_map encode_code_point (decode_loop bs decoder_init)) bs.

(** UTF-8 as the standard defines it (RFC 3629): the bytes are the
    encodings of Unicode scalar values, one after the other. *)
Definition is_utf8 (bs : list byte) : Prop :=
  exists cps, Forall (fun cp => is_scalar cp = true) cps
              /\ flat_map encode_code_point cps = bs.

End Utf8.

(* ------------------------------------------------------------------ *)
(** ** Hexadecimal literals for tables and test vectors *)

Definition hex_digit (c : ascii) : N :=
  let n := N_of_ascii c in
  if (48 <=? n) && (n <=? 57) then n - 48
  else if (97 <=? n) && (n <=? 102) then n - 87
  else 0.

Fixpoint hex (s : string) : list byte :=
  match s with
  | String h (String l rest) =>
      byte_of_N (16 * hex_digit h + hex_digit l) :: hex rest
  | _ => []
  end.

(* ------------------------------------------------------------------ *)
(** ** AES (FIPS 197) *)

Module Aes.

(** A column of the state, and the state as its four columns. *)
Record word := W { w0 : byte; w1 : byte; w2 : byte; w3 : byte }.
Record block := Blk { c0 : word; c1 : word; c2 : word; c3 : word }.

Definition word_zero : word := W x00 x00 x00 x00.
Definition block_zero : block := Blk word_zero word_zero word_zero word_zero.

Definition wxor (u v : word) : word :=
  W (bxor (w0 u) (w0 v)) (bxor (w1 u) (w1 v))
    (bxor (w2 u) (w2 v)) (bxor (w3 u) (w3 v)).

Definition block_xor (a b : block) : block :=
  Blk (wxor (c0 a) (c0 b)) (wxor (c1 a) (c1 b))
      (wxor (c2 a) (c2 b)) (wxor (c3 a) (c3 b)).

Definition word_map (f : byte -> byte) (u : word) : word :=
  W (f (w0 u)) (f (w1 u)) (f (w2 u)) (f (w3 u)).

Definition block_map (f : word -> word) (b : block) : block :=
  Blk (f (c0 b)) (f (c1 b)) (f (c2 b)) (f (c3 b)).

(** FIPS 197, figure 7 and figure 14. *)
Definition sbox : list byte := Eval vm_compute in hex
  "637c777bf26b6fc53001672bfed7ab76ca82c97dfa5947f0add4a2af9ca472c0b7fd9326363ff7cc34a5e5f171d8311504c723c31896059a071280e2eb27b27509832c1a1b6e5aa0523bd6b329e32f8453d100ed20fcb15b6acbbe394a4c58cfd0efaafb434d338545f9027f503c9fa851a3408f929d38f5bcb6da2110fff3d2cd0c13ec5f974417c4a77e3d645d197360814fdc222a908846eeb814de5e0bdbe0323a0a4906245cc2d3ac629195e479e7c8376d8dd54ea96c56f4ea657aae08ba78252e1ca6b4c6e8dd741f4bbd8b8a703eb5664803f60e613557b986c11d9ee1f8981169d98e949b1e87e9ce5528df8ca1890dbfe6426841992d0fb054bb16".

Definition inv_sbox : list byte := Eval vm_compute in hex
  "52096ad53036a538bf40a39e81f3d7fb7ce339829b2fff87348e4344c4dee9cb547b9432a6c2233dee4c950b42fac34e082ea16628d924b2765ba2496d8bd12572f8f66486689816d4a45ccc5d65b6926c704850fdedb9da5e154657a78d9d8490d8ab008cbcd30af7e45805b8b34506d02c1e8fca3f0f02c1afbd0301138a6b3a9111414f67dcea97f2cfcef0b4e67396ac7422e7ad3585e2f937e81c75df6e47f11a711d29c5896fb7620eaa18be1bfc563e4bc6d279209adbc0fe78cd5af41fdda8338807c731b11210592780ec5f60517fa919b54a0d2de57a9f93c99cefa0e03b4dae2af5b0c8ebbb3c83539961172b047eba77d626e169146355210c7d".

Definition sub_byte (b : byte) : byte := nth (Byte.to_nat b) sbox x00.
Definition inv_sub_byte (b : byte) : byte := nth (Byte.to_nat b) inv_sbox x00.

Definition sub_word : word -> word := word_map sub_byte.
Definition sub_bytes : block -> block := block_map sub_word.
Definition inv_sub_bytes : block -> block := block_map (word_map inv_sub_byte).

(** Row r of the state moves r places to the left. *)
Definition shift_rows (s : block) : block :=
  let '(Blk a b c d) := s in
  Blk (W (w0 a) (w1 b) (w2 c) (w3 d))
      (W (w0 b) (w1 c) (w2 d) (w3 a))
      (W (w0 c) (w1 d) (w2 a) (w3 b))
      (W (w0 d) (w1 a) (w2 b) (w3 c)).

Definition inv_shift_rows (s : block) : block :=
  let '(Blk a b c d) := s in
  Blk (W (w0 a) (w1 d) (w2 c) (w3 b))
      (W (w0 b) (w1 a) (w2 d) (w3 c))
      (W (w0 c) (w1 b) (w2 a) (w3 d))
      (W (w0 d) (w1 c) (w2 b) (w3 a)).

(** Multiplication by x in GF(2^8) modulo x^8 + x^4 + x^3 + x + 1. *)
Definition xtime (b : byte) : byte :=
  let n := Byte.to_N b in
  byte_of_N (N.lxor (N.shiftl n 1) (if N.testbit n 7 then 0x1b else 0)).

Definition mul2 (b : byte) : byte := xtime b.
Definition mul3 (b : byte) : byte := bxor (xtime b) b.
Definition mul9 (b : byte) : byte := bxor (xtime (xtime (xtime b))) b.
Definition mul11 (b : byte) : byte :=
  bxor (bxor (xtime (xtime (xtime b))) (xtime b)) b.
Definition mul13 (b : byte) : byte :=
  bxor (bxor (xtime (xtime (xtime b))) (xtime (xtime b))) b.
Definition mul14 (b : byte) : byte :=
  bxor (bxor (xtime (xtime (xtime b))) (xtime (xtime b))) (xtime b).

Definition mix_column (u : word) : word :=
  let '(W a b c d) := u in
  W (bxor (bxor (bxor (mul2 a) (mul3 b)) c) d)
    (bxor (bxor (bxor a (mul2 b)) (mul3 c)) d)
    (bxor (bxor (bxor a b) (mul2 c)) (mul3 d))
    (bxor (bxor (bxor (mul3 a) b) c) (mul2 d)).

Definition inv_mix_column (u : word) : word :=
  let '(W a b c d) := u in
  W (bxor (bxor (bxor (mul14 a) (mul11 b)) (mul13 c)) (mul9 d))
    (bxor (bxor (bxor (mul9 a) (mul14 b)) (mul11 c)) (mul13 d))
    (bxor (bxor (bxor (mul13 a) (mul9 b)) (mul14 c)) (mul11 d))
    (bxor (bxor (bxor (mul11 a) (mul13 b)) (mul9 c)) (mul14 d)).

Definition mix_columns : block -> block := block_map mix_column.
Definition inv_mix_columns : block -> block := block_map inv_mix_column.

Definition add_round_key (s k : block) : block := block_xor s k.

(** *** Key expansion *)

Fixpoint words_of_bytes (bs : list byte) : list word :=
  match bs with
  | a :: b :: c :: d :: rest => W a b c d :: words_of_bytes rest
  | _ => []
  end.

Definition rot_word (u : word) : word := W (w1 u) (w2 u) (w3 u) (w0 u).

Fixpoint xtime_iter (n : nat) (b : byte) : byte :=
  match n with
  | O => b
  | S n' => xtime_iter n' (xtime b)
  end.

Definition rcon (i : nat) : word := W (xtime_iter (i - 1) x01) x00 x00 x00.

(** Words w[i], w[i+1], ... appended to [ws] = w[0..i-1]; [nk] is the key
    length in words. *)
Fixpoint expand (count nk i : nat) (ws : list word) : list word :=
  match count with
  | O => ws
  | S count' =>
      let prev := nth (i - 1) ws word_zero in
      let temp :=
        if (i mod nk =? 0)%nat then wxor (sub_word (rot_word prev)) (rcon (i / nk))
        else if (6 <? nk)%nat && (i mod nk =? 4)%nat then sub_word prev
        else prev in
      expand count' nk (S i) (ws ++ [wxor (nth (i - nk) ws word_zero) temp])
  end.

Definition key_expansion (key : list byte) : list word :=
  let nk := (List.length key / 4)%nat in
  expand (4 * (nk + 7) - nk) nk nk (words_of_bytes key).

Fixpoint blocks_of_words (ws : list word) : list block :=
  match ws with
  | a :: b :: c :: d :: rest => Blk a b c d :: blocks_of_words rest
  | _ => []
  end.

(** The round keys: the first, those of the full rounds, the last. *)
Record schedule := Schedule {
  first_key : block;
  middle_keys : list block;
  final_key : block
}.

Definition key_schedule (key : list byte) : schedule :=
  match blocks_of_words (key_expansion key) with
  | k0 :: rest => Schedule k0 (removelast rest) (last rest block_zero)
  | [] => Schedule block_zero [] block_zero
  end.

(** *** Cipher and inverse cipher (FIPS 197, figures 5 and 12) *)

Definition round (s k : block) : block :=
  add_round_key (mix_columns (shift_rows (sub_bytes s))) k.

Definition inv_round (s k : block) : block :=
  inv_mix_columns (add_round_key (inv_sub_bytes (inv_shift_rows s)) k).

Definition cipher (ks : schedule) (input : block) : block :=
  let s := add_round_key input (first_key ks) in
  let s := fold_left round (middle_keys ks) s in
  add_round_key (shift_rows (sub_bytes s)) (final_key ks).

Definition inv_cipher (ks : schedule) (input : block) : block :=
  let s := add_round_key input (final_key ks) in
  let s := fold_left inv_round (rev (middle_keys ks)) s in
  add_round_key (inv_sub_bytes (inv_shift_rows s)) (first_key ks).

(** *** Blocks of a byte sequence *)

Definition bytes_of_word (u : word) : list byte := [w0 u; w1 u; w2 u; w3 u].

Definition bytes_of_block (b : block) : list byte :=
  bytes_of_word (c0 b) ++ bytes_of_word (c1 b)
  ++ bytes_of_word (c2 b) ++ bytes_of_word (c3 b).

Fixpoint blocks_of_bytes (bs : list byte) : list block :=
  match bs with
  | a0 :: a1 :: a2 :: a3 :: b0 :: b1 :: b2 :: b3
    :: d0 :: d1 :: d2 :: d3 :: e0 :: e1 :: e2 :: e3 :: rest =>
      Blk (W a0 a1 a2 a3) (W b0 b1 b2 b3) (W d0 d1 d2 d3) (W e0 e1 e2 e3)
      :: blocks_of_bytes rest
  | _ => []
  end.

(** The block held by a 16-byte array. *)
Definition block_of_bytes (bs : list byte) : block :=
  hd block_zero (blocks_of_bytes bs).

Definition encrypt_block (key : list byte) (b : block) : block :=
  cipher (key_schedule key) b.

Definition decrypt_block (key : list byte) (b : block) : block :=
  inv_cipher (key_schedule key) b.

End Aes.

(* ------------------------------------------------------------------ *)
(** ** AES-CBC as WebCrypto runs it: PKCS#7 padding, CBC chaining *)

Module Cbc.
Import Aes.

(** Padding to the next multiple of 16; a full block when the data already
    fills its last block. *)
Definition pkcs7_pad (bs : list byte) : list byte :=
  let n := (16 - List.length bs mod 16)%nat in
  bs ++ repeat (byte_of_N (N.of_nat n)) n.

(** Number of padding bytes for data of length [len]. *)
Definition pad_length (len : nat) : nat := (16 - len mod 16)%nat.

(** The last byte n must be in 1..16 and the last n bytes must all be n. *)
Definition pkcs7_unpad (bs : list byte) : option (list byte) :=
  let p := last bs x00 in
  let n := Byte.to_nat p in
  let len := List.length bs in
  if (1 <=? n)%nat && (n <=? 16)%nat && (n <=? len)%nat
     && forallb (Byte.eqb p) (skipn (len - n) bs)
  then Some (firstn (len - n) bs)
  else None.

Fixpoint encrypt_blocks (key : list byte) (prev : block) (ps : list block)
  : list block :=
  match ps with
  | [] => []
  | p :: rest =>
      let c := encrypt_block key (block_xor p prev) in
      c :: encrypt_blocks key c rest
  end.

Fixpoint decrypt_blocks (key : list byte) (prev : block) (cs : list block)
  : list block :=
  match cs with
  | [] => []
  | c :: rest =>
      block_xor (decrypt_block key c) prev :: decrypt_blocks key c rest
  end.

(** PKCS#7 padding as a property (RFC 5652, section 6.3): [raw] is [data]
    followed by [n] bytes of value [n], for some [n] from 1 to 16. *)
Definition pkcs7_padded (raw data : list byte) : Prop :=
  exists n, (1 <= n <= 16)%nat
            /\ raw = data ++ repeat (byte_of_N (N.of_nat n)) n.

Definition aes_cbc_encrypt (key : list byte) (iv : block) (data : list byte)
  : list byte :=
  flat_map bytes_of_block
    (encrypt_blocks key iv (blocks_of_bytes (pkcs7_pad data))).

(** Decryption rejects an input that is empty or not a whole number of
    blocks, and a plaintext whose padding is malformed. *)
Definition aes_cbc_decrypt (key : list byte) (iv : block) (data : list byte)
  : option (list byte) :=
  let len := List.length data in
  if (len =? 0)%nat || negb (len mod 16 =? 0)%nat then None
  else pkcs7_unpad
         (flat_map bytes_of_block
            (decrypt_blocks key iv (blocks_of_bytes data))).

End Cbc.

(* ------------------------------------------------------------------ *)
(** ** Failures, the entropy tape and the monad of module calls *)

(** The module declares no error classes: a failing call rejects with what
    the platform threw.  The constructors carry the specification's names:
    - [KeyFormatError]: [DataError] of [importKey];
    - [KeyRoleError]: [InvalidAccessError] (the key's algorithm or usages
      do not fit the operation, or the key is not extractable);
    - [NotSupportedError]: [NotSupportedError] of [exportKey] (the key is
      not of the kind the format serialises);
    - [PayloadTooLargeError]: [OperationError] of an RSA-OAEP encryption;
    - [CryptoOperationError]: [OperationError] of a decryption;
    - [CryptoProviderError]: [OperationError] for unusable parameters (an IV
      that is not 16 bytes);
    - [EncodingError]: what a strict base64 or UTF-8 decoder would throw. *)
Inductive error : Type :=
| EncodingError
| KeyFormatError
| KeyRoleError
| NotSupportedError
| PayloadTooLargeError
| CryptoProviderError
| CryptoOperationError.

Inductive result (A : Type) : Type :=
| Ok (a : A)
| Err (e : error).
Arguments Ok {A} a.
Arguments Err {A} e.

(** The platform's random source: a tape of bytes and the position of the
    next unread one. *)
Record world := World { tape : nat -> byte; cursor : nat }.

Definition M (A : Type) : Type := world -> result A * world.

Definition ret {A} (a : A) : M A := fun w => (Ok a, w).

Definition throw {A} (e : error) : M A := fun w => (Err e, w).

Definition bind {A B} (c : M A) (k : A -> M B) : M B :=
  fun w =>
    match c w with
    | (Ok a, w') => k a w'
    | (Err e, w') => (Err e, w')
    end.

Notation "x <- c ;; k" := (bind c (fun x => k))
  (at level 61, c at next level, right associativity).

Definition lift {A} (r : result A) : M A := fun w => (r, w).

Definition lift_option {A} (e : error) (o : option A) : M A :=
  match o with
  | Some a => ret a
  | None => throw e
  end.

(** A call that reads nothing from the tape: its result is the same in every
    world and the world is left as it was. *)
Definition draws_nothing {A} (c : M A) : Prop :=
  forall w w', fst (c w) = fst (c w') /\ snd (c w) = w.

(** [webcrypto.getRandomValues(new Uint8Array(n))] *)
Definition getRandomValues (n : nat) : M (list byte) :=
  fun w =>
    (Ok (map (fun i => tape w (cursor w + i)%nat) (seq 0 n)),
     World (tape w) (cursor w + n)).

(* ------------------------------------------------------------------ *)
(** ** webcrypto.subtle *)

(** RSA-OAEP (2048-bit keys, SHA-256) is taken through its interface:
    key generation from entropy, the SPKI and PKCS#8 serialisations, and
    RSAES-OAEP encryption (seeded) and decryption. *)
Class RsaProvider : Type := {
  rsa_public : Type;
  rsa_private : Type;
  keygen_draw : nat;
  rsa_keygen : nat -> list byte -> rsa_public * rsa_private;
  modulus_bytes : rsa_public -> nat;
  spki_encode : rsa_public -> list byte;
  spki_decode : list byte -> option rsa_public;
  pkcs8_encode : rsa_private -> list byte;
  pkcs8_decode : list byte -> option rsa_private;
  oaep_encrypt : rsa_public -> list byte -> list byte -> option (list byte);
  oaep_decrypt : rsa_private -> list byte -> option (list byte)
}.

(** Bytes of overhead of OAEP with SHA-256: 2 * 32 + 2. *)
Definition oaep_overhead : nat := 66.

(** What the standards promise of an RSA-OAEP implementation. *)
Class RsaContract (P : RsaProvider) : Prop := {
  spki_round_trip : forall pk, spki_decode (spki_encode pk) = Some pk;
  pkcs8_round_trip : forall sk, pkcs8_decode (pkcs8_encode sk) = Some sk;
  keygen_modulus : forall entropy,
    modulus_bytes (fst (rsa_keygen 2048 entropy)) = 256%nat;
  oaep_accepts : forall pk seed m,
    (List.length m + oaep_overhead <= modulus_bytes pk)%nat ->
    exists c, oaep_encrypt pk seed m = Some c;
  oaep_rejects : forall pk seed m,
    (modulus_bytes pk < List.length m + oaep_overhead)%nat ->
    oaep_encrypt pk seed m = None;
  oaep_inverts : forall bits entropy seed m c,
    oaep_encrypt (fst (rsa_keygen bits entropy)) seed m = Some c ->
    oaep_decrypt (snd (rsa_keygen bits entropy)) c = Some m
}.

Module Subtle.
Section WithRsa.
Context {P : RsaProvider}.

Inductive key_material : Type :=
| RsaPublic (pk : rsa_public)
| RsaPrivate (sk : rsa_private)
| AesSecret (bytes : list byte).

Inductive key_usage : Type := Encrypt | Decrypt.

Definition key_usage_eqb (a b : key_usage) : bool :=
  match a, b with
  | Encrypt, Encrypt | Decrypt, Decrypt => true
  | _, _ => false
  end.

Record CryptoKey := {
  material : key_material;
  extractable : bool;
  usages : list key_usage
}.

Definition has_usage (u : key_usage) (k : CryptoKey) : bool :=
  existsb (key_usage_eqb u) (usages k).

Inductive key_format : Type := Spki | Pkcs8 | Raw.

Inductive cipher_params : Type :=
| RsaOaep
| AesCbc (iv : list byte).

(** [generateKey] for RSA-OAEP: the public key gets the requested usages
    that fit a public key, the private key those that fit a private key;
    the public key is always extractable. *)
Definition generateKey_rsa (modulusLength : nat) (ext : bool)
    (us : list key_usage) : M (CryptoKey * CryptoKey) :=
  entropy <- getRandomValues keygen_draw ;;
  let kp := rsa_keygen modulusLength entropy in
  ret ({| material := RsaPublic (fst kp); extractable := true;
          usages := filter (key_usage_eqb Encrypt) us |},
       {| material := RsaPrivate (snd kp); extractable := ext;
          usages := filter (key_usage_eqb Decrypt) us |}).

(** [generateKey] for AES: [len] random bits. *)
Definition generateKey_aes (len : nat) (ext : bool) (us : list key_usage)
  : M CryptoKey :=
  bytes <- getRandomValues (len / 8) ;;
  ret {| material := AesSecret bytes; extractable := ext; usages := us |}.

(** [exportKey]: a key that is not extractable is refused first
    ([InvalidAccessError]); then [spki] serialises public keys, [pkcs8]
    private keys and [raw] secret keys, and any other pairing is not
    supported. *)
Definition exportKey (format : key_format) (key : CryptoKey)
  : M (list byte) :=
  if negb (extractable key) then throw KeyRoleError
  else match format, material key with
       | Spki, RsaPublic pk => ret (spki_encode pk)
       | Pkcs8, RsaPrivate sk => ret (pkcs8_encode sk)
       | Raw, AesSecret bytes => ret bytes
       | _, _ => throw NotSupportedError
       end.

Definition importKey_spki (data : list byte) (ext : bool)
    (us : list key_usage) : M CryptoKey :=
  pk <- lift_option KeyFormatError (spki_decode data) ;;
  ret {| material := RsaPublic pk; extractable := ext; usages := us |}.

Definition importKey_pkcs8 (data : list byte) (ext : bool)
    (us : list key_usage) : M CryptoKey :=
  sk <- lift_option KeyFormatError (pkcs8_decode data) ;;
  ret {| material := RsaPrivate sk; extractable := ext; usages := us |}.

(** AES keys have 128, 192 or 256 bits. *)
Definition aes_key_length (len : nat) : bool :=
  (len =? 16)%nat || (len =? 24)%nat || (len =? 32)%nat.

Definition importKey_raw_aes (data : list byte) (ext : bool)
    (us : list key_usage) : M CryptoKey :=
  if aes_key_length (List.length data)
  then ret {| material := AesSecret data; extractable := ext; usages := us |}
  else throw KeyFormatError.

Definition encrypt (params : cipher_params) (key : CryptoKey)
    (data : list byte) : M (list byte) :=
  match params, material key with
  | RsaOaep, RsaPublic pk =>
      if negb (has_usage Encrypt key) then throw KeyRoleError
      else
        seed <- getRandomValues 32 ;;
        lift_option PayloadTooLargeError (oaep_encrypt pk seed data)
  | AesCbc iv, AesSecret bytes =>
      if negb (has_usage Encrypt key) then throw KeyRoleError
      else if negb (List.length iv =? 16)%nat then throw CryptoProviderError
      else ret (Cbc.aes_cbc_encrypt bytes (Aes.block_of_bytes iv) data)
  | _, _ => throw KeyRoleError
  end.

Definition decrypt (params : cipher_params) (key : CryptoKey)
    (data : list byte) : M (list byte) :=
  match params, material key with
  | RsaOaep, RsaPrivate sk =>
      if negb (has_usage Decrypt key) then throw KeyRoleError
      else lift_option CryptoOperationError (oaep_decrypt sk data)
  | AesCbc iv, AesSecret bytes =>
      if negb (has_usage Decrypt key) then throw KeyRoleError
      else if negb (List.length iv =? 16)%nat then throw CryptoProviderError
      else lift_option CryptoOperationError
             (Cbc.aes_cbc_decrypt bytes (Aes.block_of_bytes iv) data)
  | _, _ => throw KeyRoleError
  end.

End WithRsa.
End Subtle.

(* ------------------------------------------------------------------ *)
(** ** src/crypto.ts *)

Module Crypto.
Section WithRsa.
Context {P : RsaProvider}.
Import Subtle.

(** The module's only state: [const iv], set when the module is loaded and
    never assigned again. *)
Record module_state := { iv : list byte }.

(** [const iv = webcrypto.getRandomValues(new Uint8Array(16))] *)
Definition load : M module_state :=
  bytes <- getRandomValues 16 ;;
  ret {| iv := bytes |}.

Definition arrayBufferToBase64 (buffer : list byte) : jsstring :=
  Base64.to_base64 buffer.

(** [Buffer.from(base64, "base64")] does not throw on a string, and the
    function has no check of its own. *)
Definition base64ToArrayBuffer (base64 : jsstring) : result (list byte) :=
  Ok (Base64.from_base64 base64).

Record GenerateRsaKeyPair := {
  publicKey : CryptoKey;
  privateKey : CryptoKey
}.

Definition generateRsaKeyPair : M GenerateRsaKeyPair :=
  kp <- generateKey_rsa 2048 true [Encrypt; Decrypt] ;;
  ret {| publicKey := fst kp; privateKey := snd kp |}.

Definition exportPubKey (key : CryptoKey) : M jsstring :=
  raw <- exportKey Spki key ;;
  ret (arrayBufferToBase64 raw).

(** [key ? arrayBufferToBase64(await exportKey("pkcs8", key)) : null] *)
Definition exportPrvKey (key : option CryptoKey) : M (option jsstring) :=
  match key with
  | Some k =>
      raw <- exportKey Pkcs8 k ;;
      ret (Some (arrayBufferToBase64 raw))
  | None => ret None
  end.

Definition importPubKey (strKey : jsstring) : M CryptoKey :=
  buf <- lift (base64ToArrayBuffer strKey) ;;
  importKey_spki buf true [Encrypt].

Definition importPrvKey (strKey : jsstring) : M CryptoKey :=
  buf <- lift (base64ToArrayBuffer strKey) ;;
  importKey_pkcs8 buf true [Decrypt].

Definition rsaEncrypt (b64Data strPublicKey : jsstring) : M jsstring :=
  dataBuffer <- lift (base64ToArrayBuffer b64Data) ;;
  publicKey <- importPubKey strPublicKey ;;
  ct <- encrypt RsaOaep publicKey dataBuffer ;;
  ret (arrayBufferToBase64 ct).

Definition rsaDecrypt (data : jsstring) (privateKey : CryptoKey)
  : M jsstring :=
  dataBuffer <- lift (base64ToArrayBuffer data) ;;
  pt <- decrypt RsaOaep privateKey dataBuffer ;;
  ret (arrayBufferToBase64 pt).

Definition createRandomSymmetricKey : M CryptoKey :=
  generateKey_aes 256 true [Encrypt; Decrypt].

Definition exportSymKey (key : CryptoKey) : M jsstring :=
  raw <- exportKey Raw key ;;
  ret (arrayBufferToBase64 raw).

Definition importSymKey (strKey : jsstring) : M CryptoKey :=
  buf <- lift (base64ToArrayBuffer strKey) ;;
  importKey_raw_aes buf true [Encrypt; Decrypt].

Definition symEncrypt (m : module_state) (key : CryptoKey)
    (data : jsstring) : M jsstring :=
  ct <- encrypt (AesCbc (iv m)) key (Utf8.TextEncoder_encode data) ;;
  ret (arrayBufferToBase64 ct).

Definition symDecrypt (m : module_state) (strKey encryptedData : jsstring)
  : M jsstring :=
  key <- importSymKey strKey ;;
  buf <- lift (base64ToArrayBuffer encryptedData) ;;
  pt <- decrypt (AesCbc (iv m)) key buf ;;
  ret (Utf8.TextDecoder_decode pt).

End WithRsa.
End Crypto.

(* ------------------------------------------------------------------ *)
(** ** A stand-in RSA provider

    It meets [RsaContract] and nothing more (it hides nothing): a key pair is
    the entropy it was made from, a ciphertext is the first seed byte
    followed by the message.  It serves to run the module's RSA paths on
    concrete inputs. *)

Module SimRsa.

Definition sim_encrypt (pk seed m : list byte) : option (list byte) :=
  if (List.length m + oaep_overhead <=? 256)%nat
  then Some (hd x00 seed :: m)
  else None.

#[export] Instance provider : RsaProvider := {|
  rsa_public := list byte;
  rsa_private := list byte;
  keygen_draw := 8;
  rsa_keygen := fun bits entropy => (entropy, entropy);
  modulus_bytes := fun pk => 256%nat;
  spki_encode := fun pk => pk;
  spki_decode := fun bs => Some bs;
  pkcs8_encode := fun sk => sk;
  pkcs8_decode := fun bs => Some bs;
  oaep_encrypt := sim_encrypt;
  oaep_decrypt := fun sk c => match c with [] => None | _ :: m => Some m end
|}.

(** A tape that counts: byte i is i mod 256. *)
Definition counting : world := World (fun i => byte_of_N (N.of_nat i)) 0.

(** A tape of zeros. *)
Definition zeros : world := World (fun _ => x00) 0.

End SimRsa.

(* ------------------------------------------------------------------ *)
(** ** The module in use *)

(** A world whose tape starts with the given bytes (zeros after them). *)
Definition tape_of (bs : list byte) : world :=
  World (fun i => nth i bs x00) 0.

Module Scenario.
Section WithRsa.
Context {P : RsaProvider}.
Import Crypto.

(** One process: the module is loaded, a symmetric key is made, a text is
    encrypted with the key and decrypted with the exported key. *)
Definition sym_round_trip (s : jsstring) : M jsstring :=
  m <- load ;;
  k <- createRandomSymmetricKey ;;
  c <- symEncrypt m k s ;;
  ks <- exportSymKey k ;;
  symDecrypt m ks c.

(** The same text encrypted twice with the same key in one process. *)
Definition encrypt_twice (s : jsstring) : M (jsstring * jsstring) :=
  m <- load ;;
  k <- createRandomSymmetricKey ;;
  c1 <- symEncrypt m k s ;;
  c2 <- symEncrypt m k s ;;
  ret (c1, c2).

(** A payload encrypted to the exported public key of a fresh pair and
    decrypted with the pair's private key. *)
Definition rsa_round_trip (p : list byte) : M jsstring :=
  kp <- generateRsaKeyPair ;;
  pub <- exportPubKey (publicKey kp) ;;
  c <- rsaEncrypt (arrayBufferToBase64 p) pub ;;
  rsaDecrypt c (privateKey kp).

(** A base64 payload encrypted to the exported public key of a fresh
    pair. *)
Definition rsa_encrypt_fresh (b64Data : jsstring) : M jsstring :=
  kp <- generateRsaKeyPair ;;
  pub <- exportPubKey (publicKey kp) ;;
  rsaEncrypt b64Data pub.

(** The same payload encrypted twice to the same public key. *)
Definition rsa_encrypt_twice (b64Data : jsstring) : M (jsstring * jsstring) :=
  kp <- generateRsaKeyPair ;;
  pub <- exportPubKey (publicKey kp) ;;
  c1 <- rsaEncrypt b64Data pub ;;
  c2 <- rsaEncrypt b64Data pub ;;
  ret (c1, c2).

(** A caller that keeps its private key not extractable: the private key
    of a fresh pair is serialised, imported again with [extractable] false
    and handed to exportPrvKey. *)
Definition export_not_extractable : M (option jsstring) :=
  kp <- generateRsaKeyPair ;;
  raw <- Subtle.exportKey Subtle.Pkcs8 (privateKey kp) ;;
  k <- Subtle.importKey_pkcs8 raw false [Subtle.Decrypt] ;;
  exportPrvKey (Some k).

(** A text encrypted in one process and decrypted in another: the two
    module states come from two loads. *)
Definition across_processes (w1 w2 : world) (key : list byte)
    (s : jsstring) : result jsstring :=
  match load w1, load w2 with
  | (Ok m1, _), (Ok m2, _) =>
      let k := {| Subtle.material := Subtle.AesSecret key;
                  Subtle.extractable := true;
                  Subtle.usages := [Subtle.Encrypt; Subtle.Decrypt] |} in
      fst ((c <- symEncrypt m1 k s ;;
            ks <- exportSymKey k ;;
            symDecrypt m2 ks c) w1)
  | _, _ => Err CryptoProviderError
  end.

End WithRsa.
End Scenario.

(* ------------------------------------------------------------------ *)
(** ** The functions composed *)

Module Composition.
Section WithRsa.
Context {P : RsaProvider}.
Import Crypto.

(** A key made, exported and imported again. *)
Definition sym_key_reimport : M (Subtle.CryptoKey * Subtle.CryptoKey) :=
  k <- createRandomSymmetricKey ;;
  ks <- exportSymKey k ;;
  k' <- importSymKey ks ;;
  ret (k, k').

(** A base64 text sent through rsaEncrypt and rsaDecrypt under a fresh
    pair. *)
Definition rsa_round_trip_text (b64Data : jsstring) : M jsstring :=
  kp <- generateRsaKeyPair ;;
  pub <- exportPubKey (publicKey kp) ;;
  c <- rsaEncrypt b64Data pub ;;
  rsaDecrypt c (privateKey kp).

(** The hybrid scheme: the text goes under a fresh symmetric key, the
    exported symmetric key goes under the receiver's public key; the
    receiver recovers the key string with the private key and decrypts the
    text with it. *)
Definition hybrid_round_trip (s : jsstring) : M jsstring :=
  m <- load ;;
  kp <- generateRsaKeyPair ;;
  pub <- exportPubKey (publicKey kp) ;;
  k <- createRandomSymmetricKey ;;
  c <- symEncrypt m k s ;;
  ks <- exportSymKey k ;;
  ek <- rsaEncrypt ks pub ;;
  dk <- rsaDecrypt ek (privateKey kp) ;;
  symDecrypt m dk c.

End WithRsa.
End Composition.

(* ================================================================== *)
(** * Properties *)

(* ------------------------------------------------------------------ *)
(** ** Bytes *)

Module BytesFacts.

Lemma all_bytes_complete (b : byte) : In b all_bytes.
Proof.
  assert (H : existsb (Byte.eqb b) all_bytes = true)
    by (destruct b; vm_compute; reflexivity).
  apply existsb_exists in H. destruct H as [x [Hin Heq]].
  apply Byte.byte_dec_bl in Heq. now subst.
Qed.

Lemma forall_byte_spec (f : byte -> bool) :
  forall_byte f = true -> forall b, f b = true.
Proof.
  unfold forall_byte. intros H b.
  rewrite forallb_forall in H. apply H, all_bytes_complete.
Qed.

Lemma forall_byte2_spec (f : byte -> byte -> bool) :
  forall_byte (fun a => forall_byte (f a)) = true ->
  forall a b, f a b = true.
Proof.
  intros H a b.
  apply (forall_byte_spec (f a)).
  apply (forall_byte_spec (fun a => forall_byte (f a)) H).
Qed.

Lemma byte_of_to_N (b : byte) : byte_of_N (Byte.to_N b) = b.
Proof. destruct b; reflexivity. Qed.

Lemma to_N_lt (b : byte) : Byte.to_N b < 256.
Proof. pose proof (Byte.to_N_bounded b). lia. Qed.

Lemma to_N_byte_of_N (n : N) : n < 256 -> Byte.to_N (byte_of_N n) = n.
Proof.
  intros H. unfold byte_of_N. rewrite N.mod_small by exact H.
  destruct (Byte.of_N n) eqn:E.
  - now apply Byte.to_of_N.
  - apply Byte.of_N_None_iff in E. lia.
Qed.

Lemma to_N_inj (a b : byte) : Byte.to_N a = Byte.to_N b -> a = b.
Proof.
  intros H. rewrite <- (byte_of_to_N a), <- (byte_of_to_N b). now rewrite H.
Qed.

End BytesFacts.

(** Exhaustive check of an equation about one or two bytes. *)
Ltac check_bytes1 :=
  let b := fresh "b" in
  intro b; (apply Byte.byte_dec_bl || apply N.eqb_eq); revert b;
  apply BytesFacts.forall_byte_spec; vm_compute; reflexivity.

Ltac check_bytes2 :=
  let a := fresh "a" in
  let b := fresh "b" in
  intros a b; (apply Byte.byte_dec_bl || apply N.eqb_eq); revert a b;
  apply BytesFacts.forall_byte2_spec; vm_compute; reflexivity.

(* ------------------------------------------------------------------ *)
(** ** Base64 *)

Module Base64Facts.
Import Base64 BytesFacts.

Lemma opt_N_eqb_eq x y : opt_N_eqb x y = true -> x = y.
Proof.
  destruct x, y; simpl; intros H; try discriminate; trivial.
  apply N.eqb_eq in H. now subst.
Qed.

Lemma unbase64_sextet1 a : unbase64 (b64_char (sextet1 a)) = Some (sextet1 a).
Proof.
  apply opt_N_eqb_eq. revert a. apply forall_byte_spec.
  vm_compute. reflexivity.
Qed.

Lemma unbase64_sextet2 a b :
  unbase64 (b64_char (sextet2 a b)) = Some (sextet2 a b).
Proof.
  apply opt_N_eqb_eq. revert a b. apply forall_byte2_spec.
  vm_compute. reflexivity.
Qed.

Lemma unbase64_sextet3 b c :
  unbase64 (b64_char (sextet3 b c)) = Some (sextet3 b c).
Proof.
  apply opt_N_eqb_eq. revert b c. apply forall_byte2_spec.
  vm_compute. reflexivity.
Qed.

Lemma unbase64_sextet4 c : unbase64 (b64_char (sextet4 c)) = Some (sextet4 c).
Proof.
  apply opt_N_eqb_eq. revert c. apply forall_byte_spec.
  vm_compute. reflexivity.
Qed.

Lemma unbase64_pad : unbase64 pad_char = None.
Proof. reflexivity. Qed.

(** The three bytes come back from the four sextets. *)
Lemma join1 : forall a b,
  byte_of_N (N.lor (N.shiftl (N.land (sextet1 a) 63) 2)
                   (N.shiftr (N.land (sextet2 a b) 48) 4)) = a.
Proof. check_bytes2. Qed.

Lemma sextet2_low : forall a b,
  N.land (sextet2 a b) 15 = N.shiftr (Byte.to_N b) 4.
Proof. check_bytes2. Qed.

Lemma join2 : forall b c,
  byte_of_N (N.lor (N.shiftl (N.shiftr (Byte.to_N b) 4) 4)
                   (N.shiftr (N.land (sextet3 b c) 60) 2)) = b.
Proof. check_bytes2. Qed.

Lemma join3 : forall b c,
  byte_of_N (N.lor (N.shiftl (N.land (sextet3 b c) 3) 6)
                   (N.land (sextet4 c) 63)) = c.
Proof. check_bytes2. Qed.

(** The tails: one or two bytes before the padding. *)
Lemma unbase64_tail1 : forall a,
  unbase64 (b64_char (N.shiftl (N.land (Byte.to_N a) 3) 4))
  = Some (N.shiftl (N.land (Byte.to_N a) 3) 4).
Proof.
  intro a. apply opt_N_eqb_eq. revert a. apply forall_byte_spec.
  vm_compute. reflexivity.
Qed.

Lemma join_tail1 : forall a,
  byte_of_N (N.lor (N.shiftl (N.land (sextet1 a) 63) 2)
              (N.shiftr (N.land (N.shiftl (N.land (Byte.to_N a) 3) 4) 48) 4))
  = a.
Proof. check_bytes1. Qed.

Lemma unbase64_tail2 : forall b,
  unbase64 (b64_char (N.shiftl (N.land (Byte.to_N b) 15) 2))
  = Some (N.shiftl (N.land (Byte.to_N b) 15) 2).
Proof.
  intro b. apply opt_N_eqb_eq. revert b. apply forall_byte_spec.
  vm_compute. reflexivity.
Qed.

Lemma join_tail2 : forall b,
  byte_of_N (N.lor (N.shiftl (N.shiftr (Byte.to_N b) 4) 4)
              (N.shiftr (N.land (N.shiftl (N.land (Byte.to_N b) 15) 2) 60) 2))
  = b.
Proof. check_bytes1. Qed.

(** The characters the encoder writes are their own low bytes. *)
Lemma low_byte_b64_char x : low_byte (b64_char x) = b64_char x.
Proof.
  unfold low_byte, b64_char.
  destruct (N.ltb_spec x 26); [apply N.mod_small; lia|].
  destruct (N.ltb_spec x 52); [apply N.mod_small; lia|].
  destruct (N.ltb_spec x 62); [apply N.mod_small; lia|].
  destruct (x =? 62); reflexivity.
Qed.

Lemma low_byte_pad : low_byte pad_char = pad_char.
Proof. reflexivity. Qed.

Lemma low_byte_idem c : low_byte (low_byte c) = low_byte c.
Proof.
  unfold low_byte. apply N.mod_small. now apply N.mod_lt.
Qed.

(** At the start of a group the previous sextet plays no part. *)
Lemma loop_phase0 s : forall h h',
  from_base64_loop s 0 h = from_base64_loop s 0 h'.
Proof.
  induction s as [|c rest IH]; intros h h'; simpl; trivial.
  destruct (unbase64 (low_byte c)); trivial.
  destruct (low_byte c =? pad_char); trivial.
Qed.

Lemma list_ind3 (A : Type) (Q : list A -> Prop) :
  Q [] -> (forall a, Q [a]) -> (forall a b, Q [a; b]) ->
  (forall a b c l, Q l -> Q (a :: b :: c :: l)) ->
  forall l, Q l.
Proof.
  intros H0 H1 H2 H3 l.
  assert (H : Q l /\ (forall a, Q (a :: l)) /\ (forall a b, Q (a :: b :: l))).
  { induction l as [|x l [IH0 [IH1 IH2]]]; repeat split; auto. }
  apply H.
Qed.

Lemma loop_group a b c rest h :
  from_base64_loop (to_base64 (a :: b :: c :: rest)) 0 h
  = a :: b :: c :: from_base64_loop (to_base64 rest) 0 0.
Proof.
  change (to_base64 (a :: b :: c :: rest))
    with (b64_char (sextet1 a) :: b64_char (sextet2 a b)
          :: b64_char (sextet3 b c) :: b64_char (sextet4 c)
          :: to_base64 rest).
  cbn [from_base64_loop]. rewrite !low_byte_b64_char.
  rewrite unbase64_sextet1, unbase64_sextet2, unbase64_sextet3,
    unbase64_sextet4.
  rewrite join1, sextet2_low, join2, join3.
  do 3 f_equal. apply loop_phase0.
Qed.

Lemma from_to_base64 (bs : list byte) : from_base64 (to_base64 bs) = bs.
Proof.
  unfold from_base64.
  induction bs as [| a | a b | a b c rest IH] using list_ind3.
  - reflexivity.
  - cbn [to_base64 from_base64_loop].
    rewrite !low_byte_b64_char, low_byte_pad.
    fold (sextet1 a).
    rewrite unbase64_sextet1, unbase64_tail1, join_tail1, unbase64_pad.
    reflexivity.
  - cbn [to_base64 from_base64_loop].
    rewrite !low_byte_b64_char, low_byte_pad.
    fold (sextet1 a) (sextet2 a b).
    rewrite unbase64_sextet1, unbase64_sextet2, unbase64_tail2.
    rewrite join1, sextet2_low, join_tail2, unbase64_pad.
    reflexivity.
  - rewrite loop_group. now rewrite IH.
Qed.

End Base64Facts.

(* ------------------------------------------------------------------ *)
(** ** Exclusive or on bytes *)

Module XorFacts.
Import BytesFacts.

Lemma to_N_bxor : forall a b,
  Byte.to_N (bxor a b) = N.lxor (Byte.to_N a) (Byte.to_N b).
Proof. check_bytes2. Qed.

Lemma bxor_comm a b : bxor a b = bxor b a.
Proof. unfold bxor. now rewrite N.lxor_comm. Qed.

Lemma bxor_assoc a b c : bxor a (bxor b c) = bxor (bxor a b) c.
Proof. apply to_N_inj. rewrite !to_N_bxor. now rewrite N.lxor_assoc. Qed.

Lemma bxor_0_r : forall a, bxor a x00 = a.
Proof. check_bytes1. Qed.

Lemma bxor_self : forall a, bxor a a = x00.
Proof. check_bytes1. Qed.

Lemma bxor_cancel_r a b : bxor (bxor a b) b = a.
Proof. now rewrite <- bxor_assoc, bxor_self, bxor_0_r. Qed.

Lemma bxor_inj_r a b c : bxor a c = bxor b c -> a = b.
Proof.
  intros H. rewrite <- (bxor_cancel_r a c), H. apply bxor_cancel_r.
Qed.

(** Sixteen terms summed by rows or by columns. *)
Lemma xor4_transpose x11 x12 x13 x14 x21 x22 x23 x24
                     x31 x32 x33 x34 x41 x42 x43 x44 :
  xor4 (xor4 x11 x12 x13 x14) (xor4 x21 x22 x23 x24)
       (xor4 x31 x32 x33 x34) (xor4 x41 x42 x43 x44)
  = xor4 (xor4 x11 x21 x31 x41) (xor4 x12 x22 x32 x42)
         (xor4 x13 x23 x33 x43) (xor4 x14 x24 x34 x44).
Proof.
  unfold xor4. apply to_N_inj. rewrite !to_N_bxor.
  apply N.bits_inj. intro n. rewrite !N.lxor_spec. btauto.
Qed.

End XorFacts.

(* ------------------------------------------------------------------ *)
(** ** AES: the inverse cipher undoes the cipher *)

Module AesFacts.
Import Aes BytesFacts XorFacts.

Lemma inv_sub_byte_sub_byte : forall b, inv_sub_byte (sub_byte b) = b.
Proof. check_bytes1. Qed.

Lemma inv_sub_bytes_sub_bytes s : inv_sub_bytes (sub_bytes s) = s.
Proof.
  destruct s as [[? ? ? ?] [? ? ? ?] [? ? ? ?] [? ? ? ?]].
  unfold inv_sub_bytes, sub_bytes, sub_word, block_map, word_map; simpl.
  now rewrite !inv_sub_byte_sub_byte.
Qed.

Lemma inv_shift_rows_shift_rows s : inv_shift_rows (shift_rows s) = s.
Proof. destruct s as [[? ? ? ?] [? ? ? ?] [? ? ? ?] [? ? ? ?]]. reflexivity. Qed.

Lemma wxor_cancel u k : wxor (wxor u k) k = u.
Proof.
  destruct u, k. unfold wxor; simpl. now rewrite !bxor_cancel_r.
Qed.

Lemma block_xor_cancel s k : block_xor (block_xor s k) k = s.
Proof.
  destruct s, k. unfold block_xor; simpl. now rewrite !wxor_cancel.
Qed.

Lemma block_xor_inj_r a b k : block_xor a k = block_xor b k -> a = b.
Proof.
  intros H. rewrite <- (block_xor_cancel a k), H. apply block_xor_cancel.
Qed.

Lemma add_round_key_cancel s k : add_round_key (add_round_key s k) k = s.
Proof. apply block_xor_cancel. Qed.

(** Multiplication by a constant distributes over exclusive or. *)
Lemma xtime_xor : forall a b, xtime (bxor a b) = bxor (xtime a) (xtime b).
Proof. check_bytes2. Qed.

Lemma xtime_xor4 p q r s :
  xtime (xor4 p q r s) = xor4 (xtime p) (xtime q) (xtime r) (xtime s).
Proof. unfold xor4. rewrite !xtime_xor. reflexivity. Qed.

Lemma xor4_sum2 p q r s p' q' r' s' :
  bxor (xor4 p q r s) (xor4 p' q' r' s')
  = xor4 (bxor p p') (bxor q q') (bxor r r') (bxor s s').
Proof.
  unfold xor4. apply to_N_inj. rewrite !to_N_bxor.
  apply N.bits_inj. intro n. rewrite !N.lxor_spec. btauto.
Qed.

Lemma mul9_xor4 p q r s :
  mul9 (xor4 p q r s) = xor4 (mul9 p) (mul9 q) (mul9 r) (mul9 s).
Proof. unfold mul9. rewrite !xtime_xor4, !xor4_sum2. reflexivity. Qed.

Lemma mul11_xor4 p q r s :
  mul11 (xor4 p q r s) = xor4 (mul11 p) (mul11 q) (mul11 r) (mul11 s).
Proof. unfold mul11. rewrite !xtime_xor4, !xor4_sum2. reflexivity. Qed.

Lemma mul13_xor4 p q r s :
  mul13 (xor4 p q r s) = xor4 (mul13 p) (mul13 q) (mul13 r) (mul13 s).
Proof. unfold mul13. rewrite !xtime_xor4, !xor4_sum2. reflexivity. Qed.

Lemma mul14_xor4 p q r s :
  mul14 (xor4 p q r s) = xor4 (mul14 p) (mul14 q) (mul14 r) (mul14 s).
Proof. unfold mul14. rewrite !xtime_xor4, !xor4_sum2. reflexivity. Qed.

(** The product of the two matrices, entry by entry: the diagonal is the
    identity, the rest vanishes. *)
Lemma e00 : forall a,
  xor4 (mul14 (mul2 a)) (mul11 a) (mul13 a) (mul9 (mul3 a)) = a.
Proof. check_bytes1. Qed.

Lemma e01 : forall a,
  xor4 (mul14 (mul3 a)) (mul11 (mul2 a)) (mul13 a) (mul9 a) = x00.
Proof. check_bytes1. Qed.

Lemma e02 : forall a,
  xor4 (mul14 a) (mul11 (mul3 a)) (mul13 (mul2 a)) (mul9 a) = x00.
Proof. check_bytes1. Qed.

Lemma e03 : forall a,
  xor4 (mul14 a) (mul11 a) (mul13 (mul3 a)) (mul9 (mul2 a)) = x00.
Proof. check_bytes1. Qed.

Lemma e11 : forall a,
  xor4 (mul9 (mul3 a)) (mul14 (mul2 a)) (mul11 a) (mul13 a) = a.
Proof. check_bytes1. Qed.

Lemma e10 : forall a,
  xor4 (mul9 (mul2 a)) (mul14 a) (mul11 a) (mul13 (mul3 a)) = x00.
Proof. check_bytes1. Qed.

Lemma e12 : forall a,
  xor4 (mul9 a) (mul14 (mul3 a)) (mul11 (mul2 a)) (mul13 a) = x00.
Proof. check_bytes1. Qed.

Lemma e13 : forall a,
  xor4 (mul9 a) (mul14 a) (mul11 (mul3 a)) (mul13 (mul2 a)) = x00.
Proof. check_bytes1. Qed.

Lemma e22 : forall a,
  xor4 (mul13 a) (mul9 (mul3 a)) (mul14 (mul2 a)) (mul11 a) = a.
Proof. check_bytes1. Qed.

Lemma e20 : forall a,
  xor4 (mul13 (mul2 a)) (mul9 a) (mul14 a) (mul11 (mul3 a)) = x00.
Proof. check_bytes1. Qed.

Lemma e21 : forall a,
  xor4 (mul13 (mul3 a)) (mul9 (mul2 a)) (mul14 a) (mul11 a) = x00.
Proof. check_bytes1. Qed.

Lemma e23 : forall a,
  xor4 (mul13 a) (mul9 a) (mul14 (mul3 a)) (mul11 (mul2 a)) = x00.
Proof. check_bytes1. Qed.

Lemma e33 : forall a,
  xor4 (mul11 a) (mul13 a) (mul9 (mul3 a)) (mul14 (mul2 a)) = a.
Proof. check_bytes1. Qed.

Lemma e30 : forall a,
  xor4 (mul11 (mul2 a)) (mul13 a) (mul9 a) (mul14 (mul3 a)) = x00.
Proof. check_bytes1. Qed.

Lemma e31 : forall a,
  xor4 (mul11 (mul3 a)) (mul13 (mul2 a)) (mul9 a) (mul14 a) = x00.
Proof. check_bytes1. Qed.

Lemma e32 : forall a,
  xor4 (mul11 a) (mul13 (mul3 a)) (mul9 (mul2 a)) (mul14 a) = x00.
Proof. check_bytes1. Qed.

Lemma xor4_first a : xor4 a x00 x00 x00 = a.
Proof. unfold xor4. now rewrite !bxor_0_r. Qed.

Lemma xor4_second : forall a, xor4 x00 a x00 x00 = a.
Proof. check_bytes1. Qed.

Lemma xor4_third : forall a, xor4 x00 x00 a x00 = a.
Proof. check_bytes1. Qed.

Lemma xor4_fourth : forall a, xor4 x00 x00 x00 a = a.
Proof. check_bytes1. Qed.

Lemma mix_column_xor4 a b c d :
  mix_column (W a b c d)
  = W (xor4 (mul2 a) (mul3 b) c d) (xor4 a (mul2 b) (mul3 c) d)
      (xor4 a b (mul2 c) (mul3 d)) (xor4 (mul3 a) b c (mul2 d)).
Proof. unfold xor4. reflexivity. Qed.

Lemma inv_mix_column_xor4 a b c d :
  inv_mix_column (W a b c d)
  = W (xor4 (mul14 a) (mul11 b) (mul13 c) (mul9 d))
      (xor4 (mul9 a) (mul14 b) (mul11 c) (mul13 d))
      (xor4 (mul13 a) (mul9 b) (mul14 c) (mul11 d))
      (xor4 (mul11 a) (mul13 b) (mul9 c) (mul14 d)).
Proof. unfold xor4. reflexivity. Qed.

(** Each entry of the product, distributed and summed by columns. *)
Lemma mix_entry (f1 f2 f3 f4 : byte -> byte)
    x11 x12 x13 x14 x21 x22 x23 x24 x31 x32 x33 x34 x41 x42 x43 x44 :
  (forall p q r s, f1 (xor4 p q r s) = xor4 (f1 p) (f1 q) (f1 r) (f1 s)) ->
  (forall p q r s, f2 (xor4 p q r s) = xor4 (f2 p) (f2 q) (f2 r) (f2 s)) ->
  (forall p q r s, f3 (xor4 p q r s) = xor4 (f3 p) (f3 q) (f3 r) (f3 s)) ->
  (forall p q r s, f4 (xor4 p q r s) = xor4 (f4 p) (f4 q) (f4 r) (f4 s)) ->
  xor4 (f1 (xor4 x11 x12 x13 x14)) (f2 (xor4 x21 x22 x23 x24))
       (f3 (xor4 x31 x32 x33 x34)) (f4 (xor4 x41 x42 x43 x44))
  = xor4 (xor4 (f1 x11) (f2 x21) (f3 x31) (f4 x41))
         (xor4 (f1 x12) (f2 x22) (f3 x32) (f4 x42))
         (xor4 (f1 x13) (f2 x23) (f3 x33) (f4 x43))
         (xor4 (f1 x14) (f2 x24) (f3 x34) (f4 x44)).
Proof.
  intros H1 H2 H3 H4. rewrite H1, H2, H3, H4. apply xor4_transpose.
Qed.

Lemma inv_mix_column_mix_column u : inv_mix_column (mix_column u) = u.
Proof.
  destruct u as [a b c d].
  rewrite mix_column_xor4, inv_mix_column_xor4.
  f_equal.
  - rewrite (mix_entry mul14 mul11 mul13 mul9)
      by (intros; first [apply mul14_xor4 | apply mul11_xor4
                        | apply mul13_xor4 | apply mul9_xor4]).
    rewrite (e00 a), (e01 b), (e02 c), (e03 d). apply xor4_first.
  - rewrite (mix_entry mul9 mul14 mul11 mul13)
      by (intros; first [apply mul14_xor4 | apply mul11_xor4
                        | apply mul13_xor4 | apply mul9_xor4]).
    rewrite (e10 a), (e11 b), (e12 c), (e13 d). apply xor4_second.
  - rewrite (mix_entry mul13 mul9 mul14 mul11)
      by (intros; first [apply mul14_xor4 | apply mul11_xor4
                        | apply mul13_xor4 | apply mul9_xor4]).
    rewrite (e20 a), (e21 b), (e22 c), (e23 d). apply xor4_third.
  - rewrite (mix_entry mul11 mul13 mul9 mul14)
      by (intros; first [apply mul14_xor4 | apply mul11_xor4
                        | apply mul13_xor4 | apply mul9_xor4]).
    rewrite (e30 a), (e31 b), (e32 c), (e33 d). apply xor4_fourth.
Qed.

Lemma inv_mix_columns_mix_columns s : inv_mix_columns (mix_columns s) = s.
Proof.
  destruct s. unfold inv_mix_columns, mix_columns, block_map; simpl.
  now rewrite !inv_mix_column_mix_column.
Qed.

Lemma inv_round_round s k :
  inv_round (shift_rows (sub_bytes (round s k))) k = shift_rows (sub_bytes s).
Proof.
  unfold inv_round, round.
  rewrite inv_shift_rows_shift_rows, inv_sub_bytes_sub_bytes,
    add_round_key_cancel, inv_mix_columns_mix_columns. reflexivity.
Qed.

Lemma fold_left_undo (S K : Type) (f g : S -> K -> S) (h : S -> S) :
  (forall s k, g (h (f s k)) k = h s) ->
  forall ks s, fold_left g (rev ks) (h (fold_left f ks s)) = h s.
Proof.
  intros Hgf ks.
  induction ks as [|k ks IH] using rev_ind; intros s.
  - reflexivity.
  - rewrite fold_left_app, rev_unit. cbn [fold_left].
    rewrite Hgf. apply IH.
Qed.

Lemma inv_rounds_rounds ks s :
  fold_left inv_round (rev ks) (shift_rows (sub_bytes (fold_left round ks s)))
  = shift_rows (sub_bytes s).
Proof.
  exact (@fold_left_undo _ _ round inv_round (fun x => shift_rows (sub_bytes x))
           inv_round_round ks s).
Qed.

(** The inverse cipher undoes the cipher, whatever the round keys. *)
Lemma inv_cipher_cipher ks b : inv_cipher ks (cipher ks b) = b.
Proof.
  unfold inv_cipher, cipher.
  rewrite (add_round_key_cancel _ (final_key ks)).
  rewrite inv_rounds_rounds.
  rewrite inv_shift_rows_shift_rows.
  rewrite inv_sub_bytes_sub_bytes.
  apply add_round_key_cancel.
Qed.

Lemma decrypt_encrypt_block key b :
  decrypt_block key (encrypt_block key b) = b.
Proof. apply inv_cipher_cipher. Qed.

End AesFacts.

(* ------------------------------------------------------------------ *)
(** ** AES-CBC: decryption undoes encryption, and only under the same IV *)

Module CbcFacts.
Import Aes Cbc BytesFacts XorFacts AesFacts.

Lemma blocks_of_flat bl : blocks_of_bytes (flat_map bytes_of_block bl) = bl.
Proof.
  induction bl as [|b bl IH]; [reflexivity|].
  destruct b as [[? ? ? ?] [? ? ? ?] [? ? ? ?] [? ? ? ?]].
  cbn [flat_map bytes_of_block bytes_of_word c0 c1 c2 c3 w0 w1 w2 w3 app
       blocks_of_bytes].
  now rewrite IH.
Qed.

Lemma length_flat bl :
  List.length (flat_map bytes_of_block bl) = (16 * List.length bl)%nat.
Proof.
  induction bl as [|b bl IH]; [reflexivity|].
  cbn [flat_map]. rewrite length_app, IH. cbn [List.length bytes_of_block
    bytes_of_word app]. lia.
Qed.

Lemma blocks_exact n : forall bs,
  List.length bs = (16 * n)%nat ->
  List.length (blocks_of_bytes bs) = n
  /\ flat_map bytes_of_block (blocks_of_bytes bs) = bs.
Proof.
  induction n as [|n IH]; intros bs H.
  - destruct bs; [now split | discriminate].
  - do 16 (destruct bs as [|? bs]; [cbn [List.length] in H; lia|]).
    cbn [List.length] in H.
    destruct (IH bs) as [IH1 IH2]; [lia|].
    cbn [blocks_of_bytes flat_map bytes_of_block bytes_of_word
         c0 c1 c2 c3 w0 w1 w2 w3 app List.length].
    rewrite IH1, IH2. now split.
Qed.

Lemma length_encrypt_blocks key : forall ps iv,
  List.length (encrypt_blocks key iv ps) = List.length ps.
Proof.
  induction ps as [|p ps IH]; intros iv; cbn [encrypt_blocks List.length];
    [reflexivity | now rewrite IH].
Qed.

Lemma decrypt_encrypt_blocks key : forall ps iv,
  decrypt_blocks key iv (encrypt_blocks key iv ps) = ps.
Proof.
  induction ps as [|p ps IH]; intros iv; [reflexivity|].
  cbn [encrypt_blocks decrypt_blocks].
  rewrite decrypt_encrypt_block, block_xor_cancel, IH. reflexivity.
Qed.

(** *** Padding *)

Lemma pad_length_range len : (1 <= pad_length len <= 16)%nat.
Proof.
  unfold pad_length. pose proof (Nat.mod_upper_bound len 16). lia.
Qed.

Lemma pad_total len :
  (len + pad_length len = 16 * S (len / 16))%nat.
Proof.
  unfold pad_length. pose proof (Nat.mod_upper_bound len 16).
  pose proof (Nat.div_mod_eq len 16). lia.
Qed.

Lemma length_pkcs7_pad bs :
  List.length (pkcs7_pad bs) = (16 * S (List.length bs / 16))%nat.
Proof.
  unfold pkcs7_pad. rewrite length_app, repeat_length. apply pad_total.
Qed.

Lemma to_nat_small n :
  (n <= 255)%nat -> Byte.to_nat (byte_of_N (N.of_nat n)) = n.
Proof.
  intros H. rewrite Byte.to_nat_via_N, to_N_byte_of_N by lia. lia.
Qed.

Lemma last_repeat (p : byte) n bs :
  last (bs ++ repeat p (S n)) x00 = p.
Proof.
  replace (repeat p (S n)) with (repeat p n ++ [p]).
  - rewrite app_assoc. apply last_last.
  - symmetry. apply (repeat_cons n p).
Qed.

Lemma forallb_repeat (p : byte) n : forallb (Byte.eqb p) (repeat p n) = true.
Proof.
  induction n as [|n IH]; [reflexivity|].
  cbn [repeat forallb]. rewrite IH, Byte.byte_dec_lb; reflexivity.
Qed.

Lemma pkcs7_unpad_pad bs : pkcs7_unpad (pkcs7_pad bs) = Some bs.
Proof.
  unfold pkcs7_unpad.
  rewrite length_pkcs7_pad, <- pad_total.
  unfold pkcs7_pad. fold (pad_length (List.length bs)).
  pose proof (pad_length_range (List.length bs)) as R.
  destruct (pad_length (List.length bs)) as [|k] eqn:E; [lia|].
  rewrite last_repeat, to_nat_small by lia.
  replace (List.length bs + S k - S k)%nat with (List.length bs) by lia.
  rewrite skipn_app, skipn_all, Nat.sub_diag. cbn [app skipn].
  rewrite forallb_repeat.
  rewrite firstn_app, firstn_all, Nat.sub_diag. cbn [firstn].
  rewrite app_nil_r.
  replace ((1 <=? S k)%nat && (S k <=? 16)%nat
           && (S k <=? List.length bs + S k)%nat) with true; [reflexivity|].
  symmetry. rewrite !andb_true_iff, !Nat.leb_le. lia.
Qed.

Lemma forallb_eqb_repeat (p : byte) l :
  forallb (Byte.eqb p) l = true -> l = repeat p (List.length l).
Proof.
  induction l as [|x l IH]; cbn [forallb List.length repeat]; [reflexivity|].
  rewrite andb_true_iff. intros [Hx Hl].
  apply Byte.byte_dec_bl in Hx. subst x. now rewrite <- IH.
Qed.

(** A padded plaintext is determined by its length and what unpadding
    returns. *)
Lemma pkcs7_unpad_inv X d :
  pkcs7_unpad X = Some d ->
  X = d ++ repeat (byte_of_N (N.of_nat (List.length X - List.length d)))
                  (List.length X - List.length d).
Proof.
  unfold pkcs7_unpad.
  set (p := last X x00). set (n := Byte.to_nat p).
  destruct ((1 <=? n)%nat && (n <=? 16)%nat && (n <=? List.length X)%nat
            && forallb (Byte.eqb p) (skipn (List.length X - n) X)) eqn:C;
    [|discriminate].
  rewrite !andb_true_iff, !Nat.leb_le in C.
  destruct C as [[[C1 C2] C3] C4].
  intros H. injection H as H.
  assert (Ld : List.length d = (List.length X - n)%nat).
  { rewrite <- H, length_firstn. lia. }
  replace (List.length X - List.length d)%nat with n by lia.
  apply forallb_eqb_repeat in C4.
  rewrite length_skipn in C4.
  replace (List.length X - (List.length X - n))%nat with n in C4 by lia.
  assert (Hp : byte_of_N (N.of_nat n) = p).
  { unfold n. rewrite Byte.to_nat_via_N, N2Nat.id. apply byte_of_to_N. }
  rewrite Hp, <- C4, <- H. symmetry. apply firstn_skipn.
Qed.

Lemma pkcs7_unpad_inj X Y d :
  List.length X = List.length Y ->
  pkcs7_unpad X = Some d -> pkcs7_unpad Y = Some d -> X = Y.
Proof.
  intros L HX HY.
  rewrite (@pkcs7_unpad_inv X d HX), (@pkcs7_unpad_inv Y d HY), L. reflexivity.
Qed.

(** *** The mode *)

Lemma length_aes_cbc_encrypt key iv data :
  List.length (aes_cbc_encrypt key iv data)
  = (16 * S (List.length data / 16))%nat.
Proof.
  unfold aes_cbc_encrypt.
  rewrite length_flat, length_encrypt_blocks.
  destruct (@blocks_exact _ _ (length_pkcs7_pad data)) as [L _].
  now rewrite L.
Qed.

Lemma aes_cbc_decrypt_unfold key iv iv' data :
  aes_cbc_decrypt key iv' (aes_cbc_encrypt key iv data)
  = pkcs7_unpad
      (flat_map bytes_of_block
         (decrypt_blocks key iv'
            (encrypt_blocks key iv (blocks_of_bytes (pkcs7_pad data))))).
Proof.
  unfold aes_cbc_decrypt at 1.
  rewrite length_aes_cbc_encrypt.
  replace (16 * S (List.length data / 16))%nat
    with (S (List.length data / 16) * 16)%nat by lia.
  rewrite Nat.Div0.mod_mul. cbn [Nat.eqb orb negb].
  unfold aes_cbc_encrypt. rewrite blocks_of_flat. reflexivity.
Qed.

Lemma flat_blocks_pad data :
  flat_map bytes_of_block (blocks_of_bytes (pkcs7_pad data)) = pkcs7_pad data.
Proof.
  destruct (@blocks_exact _ _ (length_pkcs7_pad data)) as [_ F]. exact F.
Qed.

(** Decryption with the key and IV of the encryption returns the data. *)
Theorem aes_cbc_decrypt_encrypt key iv data :
  aes_cbc_decrypt key iv (aes_cbc_encrypt key iv data) = Some data.
Proof.
  rewrite aes_cbc_decrypt_unfold, decrypt_encrypt_blocks, flat_blocks_pad.
  apply pkcs7_unpad_pad.
Qed.

Lemma wxor_comm u v : wxor u v = wxor v u.
Proof.
  unfold wxor.
  rewrite (bxor_comm (w0 u)), (bxor_comm (w1 u)), (bxor_comm (w2 u)),
    (bxor_comm (w3 u)). reflexivity.
Qed.

Lemma block_xor_comm a b : block_xor a b = block_xor b a.
Proof.
  unfold block_xor.
  rewrite (wxor_comm (c0 a)), (wxor_comm (c1 a)), (wxor_comm (c2 a)),
    (wxor_comm (c3 a)). reflexivity.
Qed.

Lemma block_xor_inj_l a x y : block_xor a x = block_xor a y -> x = y.
Proof.
  rewrite (block_xor_comm a x), (block_xor_comm a y).
  apply block_xor_inj_r.
Qed.

(** The first plaintext block depends on the IV, the others do not. *)
Lemma decrypt_blocks_other_iv key iv iv' p ps :
  decrypt_blocks key iv' (encrypt_blocks key iv (p :: ps))
  = block_xor (block_xor p iv) iv' :: ps.
Proof.
  cbn [encrypt_blocks decrypt_blocks].
  rewrite decrypt_encrypt_block, decrypt_encrypt_blocks. reflexivity.
Qed.

(** Decryption returns the data only under the IV of the encryption. *)
Theorem aes_cbc_decrypt_iv key iv iv' data :
  aes_cbc_decrypt key iv' (aes_cbc_encrypt key iv data) = Some data ->
  iv' = iv.
Proof.
  rewrite aes_cbc_decrypt_unfold. intros H.
  pose proof (pkcs7_unpad_pad data) as G.
  rewrite <- flat_blocks_pad in G.
  destruct (@blocks_exact _ _ (length_pkcs7_pad data)) as [L _].
  destruct (blocks_of_bytes (pkcs7_pad data)) as [|p ps]; [discriminate|].
  rewrite decrypt_blocks_other_iv in H.
  assert (E : flat_map bytes_of_block (block_xor (block_xor p iv) iv' :: ps)
              = flat_map bytes_of_block (p :: ps)).
  { apply (@pkcs7_unpad_inj _ _ data); trivial;
      rewrite !length_flat; reflexivity. }
  apply (f_equal blocks_of_bytes) in E. rewrite !blocks_of_flat in E.
  injection E as E.
  apply (@block_xor_inj_l (block_xor p iv)).
  rewrite E. symmetry. apply block_xor_cancel.
Qed.

(** *** Padding seen from the end *)

Lemma pkcs7_unpad_app X n :
  (1 <= n <= 16)%nat ->
  pkcs7_unpad (X ++ repeat (byte_of_N (N.of_nat n)) n) = Some X.
Proof.
  intros R. unfold pkcs7_unpad.
  destruct n as [|k]; [lia|].
  rewrite last_repeat, to_nat_small by lia.
  rewrite length_app, repeat_length.
  replace (List.length X + S k - S k)%nat with (List.length X) by lia.
  rewrite skipn_app, skipn_all, Nat.sub_diag. cbn [app skipn].
  rewrite forallb_repeat.
  rewrite firstn_app, firstn_all, Nat.sub_diag. cbn [firstn].
  rewrite app_nil_r.
  replace ((1 <=? S k)%nat && (S k <=? 16)%nat
           && (S k <=? List.length X + S k)%nat) with true; [reflexivity|].
  symmetry. rewrite !andb_true_iff, !Nat.leb_le. lia.
Qed.

(** Unpadding succeeds exactly on padded data, and returns the data. *)
Lemma pkcs7_unpad_spec raw d : pkcs7_unpad raw = Some d <-> pkcs7_padded raw d.
Proof.
  split.
  - intros H. pose proof (@pkcs7_unpad_inv raw d H) as E.
    exists (List.length raw - List.length d)%nat. split; [|exact E].
    unfold pkcs7_unpad in H.
    set (p := last raw x00) in *. set (n := Byte.to_nat p) in *.
    destruct ((1 <=? n)%nat && (n <=? 16)%nat && (n <=? List.length raw)%nat
              && forallb (Byte.eqb p) (skipn (List.length raw - n) raw)) eqn:C;
      [|discriminate].
    rewrite !andb_true_iff, !Nat.leb_le in C.
    destruct C as [[[C1 C2] C3] _].
    injection H as H.
    assert (Ld : List.length d = (List.length raw - n)%nat).
    { rewrite <- H, length_firstn. lia. }
    lia.
  - intros [n [R E]]. subst raw. now apply pkcs7_unpad_app.
Qed.

End CbcFacts.

(* ------------------------------------------------------------------ *)
(** ** UTF-8: decoding undoes encoding *)

Module Utf8Facts.
Import Utf8 BytesFacts.

Ltac Zify.zify_post_hook ::= Z.to_euclidean_division_equations.

Lemma lor_shiftl_small a y k :
  y < 2 ^ k -> N.lor (N.shiftl a k) y = a * 2 ^ k + y.
Proof.
  intros Hy.
  assert (D : N.land (N.shiftl a k) y = 0).
  { apply N.bits_inj. intro n. rewrite N.land_spec, N.bits_0.
    destruct (N.lt_ge_cases n k) as [L | G].
    - now rewrite N.shiftl_spec_low.
    - rewrite <- (N.mod_small y (2 ^ k)) by exact Hy.
      rewrite N.mod_pow2_bits_high by exact G. apply andb_false_r. }
  rewrite <- N.lxor_lor, <- N.add_nocarry_lxor by exact D.
  now rewrite N.shiftl_mul_pow2.
Qed.

Lemma land_63 x : N.land x 0x3F = x mod 64.
Proof. exact (N.land_ones x 6). Qed.

Lemma continuation_value x : Byte.to_N (continuation x) = 128 + x mod 64.
Proof.
  unfold continuation. rewrite land_63.
  change 0x80 with (N.shiftl 2 6).
  assert (x mod 64 < 64) by (apply N.mod_lt; discriminate).
  rewrite lor_shiftl_small by assumption.
  change (2 * 2 ^ 6) with 128. change (N.shiftl 2 6) with 128.
  apply to_N_byte_of_N. lia.
Qed.

(** One continuation byte read inside a sequence. *)
Lemma continuation_step st x rest :
  bytes_needed st <> 0 ->
  lower_boundary st <= 128 + x mod 64 <= upper_boundary st ->
  decode_loop (continuation x :: rest) st
  = if bytes_seen st + 1 =? bytes_needed st
    then (code_point st * 64 + x mod 64) :: decode_loop rest decoder_init
    else decode_loop rest
           (Decoder (code_point st * 64 + x mod 64) (bytes_seen st + 1)
                    (bytes_needed st) 0x80 0xBF).
Proof.
  intros Hn [Hl Hu]. cbn [decode_loop].
  rewrite continuation_value.
  apply N.eqb_neq in Hn. rewrite Hn.
  apply N.leb_le in Hl, Hu. rewrite Hl, Hu. cbn [andb].
  assert (E : N.lor (N.shiftl (code_point st) 6) (N.land (128 + x mod 64) 0x3F)
              = code_point st * 64 + x mod 64).
  { rewrite land_63.
    assert (x mod 64 < 64) by (apply N.mod_lt; discriminate).
    replace ((128 + x mod 64) mod 64) with (x mod 64) by lia.
    now rewrite lor_shiftl_small. }
  rewrite E. reflexivity.
Qed.

Ltac leb_true := 
  match goal with
  | |- context [?a <=? ?b] =>
      replace (a <=? b) with true by (symmetry; apply N.leb_le; lia)
  end.

(** Normalise the byte count after a continuation step. *)
Ltac seen_step :=
  cbn [bytes_seen bytes_needed code_point];
  match goal with
  | |- context [?a + 1 =? ?b] =>
      let v := eval vm_compute in (a + 1 =? b) in
      change (a + 1 =? b) with v;
      let w := eval vm_compute in (a + 1) in
      change (a + 1) with w
  end;
  cbv iota.

Ltac leb_false :=
  match goal with
  | |- context [?a <=? ?b] =>
      replace (a <=? b) with false by (symmetry; apply N.leb_gt; lia)
  end.

Lemma decode_lead b rest :
  decode_loop (b :: rest) decoder_init
  = fst (lead_byte (Byte.to_N b))
    ++ decode_loop rest (snd (lead_byte (Byte.to_N b))).
Proof. reflexivity. Qed.

Lemma lead_ascii b : b <= 0x7F -> lead_byte b = ([b], decoder_init).
Proof. intros H. unfold lead_byte. leb_true. reflexivity. Qed.

Lemma eqb_shift t c k : (t + c =? k + c) = (t =? k).
Proof.
  destruct (N.eqb_spec t k) as [E | E].
  - subst. apply N.eqb_refl.
  - apply N.eqb_neq. lia.
Qed.

Lemma lead_two t :
  2 <= t < 32 -> lead_byte (t + 0xC0) = ([], Decoder t 0 1 0x80 0xBF).
Proof.
  intros H. unfold lead_byte.
  leb_false. leb_true. leb_true. cbn [andb].
  change 0x1F with (N.ones 5). rewrite N.land_ones. change (2 ^ 5) with 32.
  replace ((t + 0xC0) mod 32) with t by lia. reflexivity.
Qed.

Lemma lead_three t :
  t < 16 ->
  lead_byte (t + 0xE0)
  = ([], Decoder t 0 2 (if t =? 0 then 0xA0 else 0x80)
                       (if t =? 13 then 0x9F else 0xBF)).
Proof.
  intros H. unfold lead_byte.
  leb_false. leb_true. leb_false. cbn [andb]. leb_true. leb_true. cbn [andb].
  change 0xF with (N.ones 4). rewrite N.land_ones. change (2 ^ 4) with 16.
  replace ((t + 0xE0) mod 16) with t by lia.
  change 0xE0 with (0 + 0xE0) at 2. change 0xED with (13 + 0xE0).
  rewrite !eqb_shift. reflexivity.
Qed.

Lemma lead_four t :
  t <= 4 ->
  lead_byte (t + 0xF0)
  = ([], Decoder t 0 3 (if t =? 0 then 0x90 else 0x80)
                       (if t =? 4 then 0x8F else 0xBF)).
Proof.
  intros H. unfold lead_byte.
  leb_false. leb_true. leb_false. cbn [andb]. leb_true. leb_false.
  cbn [andb]. leb_true. leb_true. cbn [andb].
  change 0x7 with (N.ones 3). rewrite N.land_ones. change (2 ^ 3) with 8.
  replace ((t + 0xF0) mod 8) with t by lia.
  change 0xF0 with (0 + 0xF0) at 2. change 0xF4 with (4 + 0xF0).
  rewrite !eqb_shift. reflexivity.
Qed.

Lemma encode_code_point_eq cp :
  encode_code_point cp
  = if cp <=? 0x7F then [byte_of_N cp]
    else if cp <=? 0x7FF then
      [byte_of_N (cp / 64 + 0xC0); continuation cp]
    else if cp <=? 0xFFFF then
      [byte_of_N (cp / 4096 + 0xE0); continuation (cp / 64); continuation cp]
    else
      [byte_of_N (cp / 262144 + 0xF0); continuation (cp / 4096);
       continuation (cp / 64); continuation cp].
Proof.
  unfold encode_code_point, continuation. rewrite !N.shiftr_div_pow2.
  reflexivity.
Qed.

Lemma is_scalar_spec cp :
  is_scalar cp = true <-> cp < 0x110000 /\ ~ (0xD800 <= cp <= 0xDFFF).
Proof.
  unfold is_scalar.
  rewrite andb_true_iff, negb_true_iff, andb_false_iff, N.ltb_lt,
    !N.leb_gt. lia.
Qed.

(** A scalar value comes back from its encoding, and the decoder is ready
    for the next one. *)
Lemma decode_encode_scalar cp rest :
  is_scalar cp = true ->
  decode_loop (encode_code_point cp ++ rest) decoder_init
  = cp :: decode_loop rest decoder_init.
Proof.
  intros H. apply is_scalar_spec in H. destruct H as [Hlt Hsur].
  rewrite encode_code_point_eq.
  destruct (N.leb_spec cp 0x7F) as [C1 | C1];
    [| destruct (N.leb_spec cp 0x7FF) as [C2 | C2];
       [| destruct (N.leb_spec cp 0xFFFF) as [C3 | C3]]];
    cbn [app]; rewrite decode_lead, to_N_byte_of_N by lia.
  - rewrite lead_ascii by lia. reflexivity.
  - rewrite lead_two by lia. cbn [fst snd app].
    rewrite continuation_step by (cbn [bytes_needed lower_boundary upper_boundary]; lia). seen_step.
    f_equal. lia.
  - rewrite lead_three by lia. cbn [fst snd app].
    rewrite continuation_step.
    2: discriminate.
    2: { cbn [lower_boundary upper_boundary].
         destruct (N.eqb_spec (cp / 4096) 0), (N.eqb_spec (cp / 4096) 13);
           lia. }
    seen_step.
    rewrite continuation_step by (cbn [bytes_needed lower_boundary upper_boundary]; lia).
    seen_step.
    f_equal. lia.
  - rewrite lead_four by lia. cbn [fst snd app].
    rewrite continuation_step.
    2: discriminate.
    2: { cbn [lower_boundary upper_boundary].
         destruct (N.eqb_spec (cp / 262144) 0), (N.eqb_spec (cp / 262144) 4);
           lia. }
    seen_step.
    rewrite continuation_step by (cbn [bytes_needed lower_boundary upper_boundary]; lia).
    seen_step.
    rewrite continuation_step by (cbn [bytes_needed lower_boundary upper_boundary]; lia).
    seen_step.
    f_equal. lia.
Qed.

Lemma surrogate_spec u :
  (is_high_surrogate u = true <-> 0xD800 <= u <= 0xDBFF)
  /\ (is_low_surrogate u = true <-> 0xDC00 <= u <= 0xDFFF).
Proof.
  unfold is_high_surrogate, is_low_surrogate.
  rewrite !andb_true_iff, !N.leb_le. tauto.
Qed.

Lemma pair_value h l :
  0xD800 <= h <= 0xDBFF -> 0xDC00 <= l <= 0xDFFF ->
  0x10000 + N.shiftl (h - 0xD800) 10 + (l - 0xDC00)
  = 0x10000 + (h - 0xD800) * 1024 + (l - 0xDC00).
Proof. intros _ _. now rewrite N.shiftl_mul_pow2. Qed.

Lemma pair_is_scalar h l :
  is_high_surrogate h = true -> is_low_surrogate l = true ->
  is_scalar (0x10000 + N.shiftl (h - 0xD800) 10 + (l - 0xDC00)) = true.
Proof.
  intros Hh Hl. apply surrogate_spec in Hh. apply surrogate_spec in Hl.
  rewrite pair_value by assumption. apply is_scalar_spec. lia.
Qed.

Lemma code_units_pair h l :
  is_high_surrogate h = true -> is_low_surrogate l = true ->
  code_units (0x10000 + N.shiftl (h - 0xD800) 10 + (l - 0xDC00)) = [h; l].
Proof.
  intros Hh Hl. apply surrogate_spec in Hh. apply surrogate_spec in Hl.
  rewrite pair_value by assumption. unfold code_units.
  replace (_ <? 0x10000) with false by (symmetry; apply N.ltb_ge; lia).
  rewrite N.shiftr_div_pow2. change 0x3FF with (N.ones 10).
  rewrite N.land_ones. change (2 ^ 10) with 1024.
  f_equal; [|f_equal]; lia.
Qed.

Lemma list_ind2 (A : Type) (Q : list A -> Prop) :
  Q [] -> (forall a, Q [a]) ->
  (forall a b l, Q l -> Q (b :: l) -> Q (a :: b :: l)) ->
  forall l, Q l.
Proof.
  intros H0 H1 H2 l.
  assert (H : Q l /\ (forall a, Q (a :: l))).
  { induction l as [|x l [IH0 IH1]]; split; auto. }
  apply H.
Qed.

Lemma code_points_scalar s :
  code_units_ok s = true ->
  Forall (fun cp => is_scalar cp = true) (code_points s).
Proof.
  induction s as [| u | u l rest IH0 IH1] using list_ind2; intros Hok.
  - constructor.
  - cbn [code_points].
    cbn [code_units_ok forallb] in Hok. rewrite andb_true_r in Hok.
    apply N.ltb_lt in Hok.
    destruct (is_high_surrogate u) eqn:Hh; [repeat constructor|].
    destruct (is_low_surrogate u) eqn:Hl; [repeat constructor|].
    repeat constructor. apply is_scalar_spec.
    pose proof (surrogate_spec u) as [S1 S2].
    rewrite Hh in S1. rewrite Hl in S2.
    assert (~ (0xD800 <= u <= 0xDBFF)) by (intro X; apply S1 in X; discriminate).
    assert (~ (0xDC00 <= u <= 0xDFFF)) by (intro X; apply S2 in X; discriminate).
    lia.
  - assert (Hrest : code_units_ok rest = true /\ code_units_ok (l :: rest) = true
                    /\ u < 0x10000).
    { cbn [code_units_ok forallb] in *.
      rewrite !andb_true_iff in Hok. rewrite andb_true_iff.
      destruct Hok as [Hu [Hl Hr]]. apply N.ltb_lt in Hu. tauto. }
    destruct Hrest as [Ok0 [Ok1 Hu]].
    specialize (IH0 Ok0). specialize (IH1 Ok1).
    change (code_points (u :: l :: rest))
      with (if is_high_surrogate u then
              if is_low_surrogate l
              then (0x10000 + N.shiftl (u - 0xD800) 10 + (l - 0xDC00))
                   :: code_points rest
              else replacement :: code_points (l :: rest)
            else if is_low_surrogate u
                 then replacement :: code_points (l :: rest)
                 else u :: code_points (l :: rest)).
    destruct (is_high_surrogate u) eqn:Hh.
    + destruct (is_low_surrogate l) eqn:Hl; constructor; trivial.
      now apply pair_is_scalar.
    + destruct (is_low_surrogate u) eqn:Hl; constructor; trivial.
      apply is_scalar_spec.
      pose proof (surrogate_spec u) as [S1 S2].
      rewrite Hh in S1. rewrite Hl in S2.
      assert (~ (0xD800 <= u <= 0xDBFF)) by (intro X; apply S1 in X; discriminate).
      assert (~ (0xDC00 <= u <= 0xDFFF)) by (intro X; apply S2 in X; discriminate).
      lia.
Qed.

Lemma decode_scalars cps :
  Forall (fun cp => is_scalar cp = true) cps ->
  decode_loop (flat_map encode_code_point cps) decoder_init = cps.
Proof.
  induction 1 as [|cp cps Hcp _ IH]; [reflexivity|].
  cbn [flat_map]. rewrite decode_encode_scalar by exact Hcp.
  now rewrite IH.
Qed.

(** The decoder reads back the code points the encoder wrote. *)
Lemma decode_loop_encode s :
  code_units_ok s = true ->
  decode_loop (TextEncoder_encode s) decoder_init = code_points s.
Proof.
  intros H. apply decode_scalars, code_points_scalar, H.
Qed.

Lemma well_formed_units_ok s : well_formed s = true -> code_units_ok s = true.
Proof.
  induction s as [| u | u l rest IH0 IH1] using list_ind2; intros H.
  - reflexivity.
  - cbn [well_formed] in H. cbn [code_units_ok forallb].
    destruct (is_high_surrogate u); [discriminate|].
    rewrite !andb_true_iff in H. rewrite andb_true_r. tauto.
  - change (well_formed (u :: l :: rest))
      with (if is_high_surrogate u
            then is_low_surrogate l && well_formed rest
            else negb (is_low_surrogate u) && (u <? 0x10000)
                 && well_formed (l :: rest)) in H.
    unfold code_units_ok in *. cbn [forallb] in *.
    destruct (is_high_surrogate u) eqn:Hh.
    + rewrite andb_true_iff in H. destruct H as [Hl Hr].
      rewrite (IH0 Hr), andb_true_r.
      apply surrogate_spec in Hh. apply surrogate_spec in Hl.
      rewrite andb_true_iff, !N.ltb_lt. lia.
    + rewrite !andb_true_iff in H. destruct H as [[_ Hu] Hr].
      rewrite Hu. exact (IH1 Hr).
Qed.

(** The code units of the code points of a well-formed string are the
    string. *)
Lemma code_units_code_points s :
  well_formed s = true -> flat_map code_units (code_points s) = s.
Proof.
  induction s as [| u | u l rest IH0 IH1] using list_ind2; intros H.
  - reflexivity.
  - cbn [well_formed] in H. cbn [code_points].
    destruct (is_high_surrogate u); [discriminate|].
    rewrite !andb_true_iff, negb_true_iff in H. destruct H as [[Hl Hu] _].
    rewrite Hl. cbn [flat_map]. unfold code_units. rewrite Hu. reflexivity.
  - change (well_formed (u :: l :: rest))
      with (if is_high_surrogate u
            then is_low_surrogate l && well_formed rest
            else negb (is_low_surrogate u) && (u <? 0x10000)
                 && well_formed (l :: rest)) in H.
    change (code_points (u :: l :: rest))
      with (if is_high_surrogate u then
              if is_low_surrogate l
              then (0x10000 + N.shiftl (u - 0xD800) 10 + (l - 0xDC00))
                   :: code_points rest
              else replacement :: code_points (l :: rest)
            else if is_low_surrogate u
                 then replacement :: code_points (l :: rest)
                 else u :: code_points (l :: rest)).
    destruct (is_high_surrogate u) eqn:Hh.
    + rewrite andb_true_iff in H. destruct H as [Hl Hr].
      rewrite Hl. cbn [flat_map].
      rewrite code_units_pair by assumption. rewrite (IH0 Hr). reflexivity.
    + rewrite !andb_true_iff, negb_true_iff in H.
      destruct H as [[Hl Hu] Hr].
      rewrite Hl. cbn [flat_map]. rewrite (IH1 Hr).
      unfold code_units. rewrite Hu. reflexivity.
Qed.

Lemma strip_bom_code_points s :
  well_formed s = true -> starts_with_bom s = false ->
  strip_bom (code_points s) = code_points s.
Proof.
  intros Hw Hb. destruct s as [|u rest]; [reflexivity|].
  cbn [starts_with_bom] in Hb.
  destruct rest as [|l rest].
  - cbn [well_formed] in Hw. cbn [code_points].
    destruct (is_high_surrogate u); [discriminate|].
    rewrite !andb_true_iff, negb_true_iff in Hw. destruct Hw as [[Hl _] _].
    rewrite Hl. cbn [strip_bom]. now rewrite Hb.
  - change (well_formed (u :: l :: rest))
      with (if is_high_surrogate u
            then is_low_surrogate l && well_formed rest
            else negb (is_low_surrogate u) && (u <? 0x10000)
                 && well_formed (l :: rest)) in Hw.
    change (code_points (u :: l :: rest))
      with (if is_high_surrogate u then
              if is_low_surrogate l
              then (0x10000 + N.shiftl (u - 0xD800) 10 + (l - 0xDC00))
                   :: code_points rest
              else replacement :: code_points (l :: rest)
            else if is_low_surrogate u
                 then replacement :: code_points (l :: rest)
                 else u :: code_points (l :: rest)).
    destruct (is_high_surrogate u) eqn:Hh.
    + rewrite andb_true_iff in Hw. destruct Hw as [Hl _]. rewrite Hl.
      cbn [strip_bom].
      apply surrogate_spec in Hh. apply surrogate_spec in Hl.
      rewrite pair_value by assumption.
      replace (_ =? bom) with false; [reflexivity|].
      symmetry. apply N.eqb_neq. unfold bom. lia.
    + rewrite !andb_true_iff, negb_true_iff in Hw.
      destruct Hw as [[Hl _] _]. rewrite Hl.
      cbn [strip_bom]. now rewrite Hb.
Qed.

(** Well-formed text without a leading U+FEFF survives encoding and
    decoding. *)
Theorem TextDecoder_decode_encode s :
  well_formed s = true -> starts_with_bom s = false ->
  TextDecoder_decode (TextEncoder_encode s) = s.
Proof.
  intros Hw Hb. unfold TextDecoder_decode.
  rewrite decode_loop_encode by (apply well_formed_units_ok, Hw).
  rewrite strip_bom_code_points by assumption.
  apply code_units_code_points, Hw.
Qed.

(** A leading U+FEFF is lost. *)
Theorem TextDecoder_decode_encode_bom s :
  well_formed s = true ->
  TextDecoder_decode (TextEncoder_encode (bom :: s)) = s.
Proof.
  intros Hw. unfold TextDecoder_decode.
  assert (Hw' : well_formed (bom :: s) = true) by exact Hw.
  rewrite decode_loop_encode by (apply well_formed_units_ok, Hw').
  change (code_points (bom :: s)) with (bom :: code_points s).
  cbn [strip_bom]. rewrite N.eqb_refl.
  apply code_units_code_points, Hw.
Qed.

End Utf8Facts.

(* ------------------------------------------------------------------ *)
(** ** UTF-8: what the decoder accepts *)

Module Utf8Reads.
Import Utf8 BytesFacts Utf8Facts.

Ltac Zify.zify_post_hook ::= Z.to_euclidean_division_equations.

(** One byte read inside a sequence. *)
Lemma decode_pending b rest st :
  bytes_needed st <> 0 ->
  decode_loop (b :: rest) st
  = if (lower_boundary st <=? Byte.to_N b) && (Byte.to_N b <=? upper_boundary st)
    then if bytes_seen st + 1 =? bytes_needed st
         then (code_point st * 64 + Byte.to_N b mod 64)
              :: decode_loop rest decoder_init
         else decode_loop rest
                (Decoder (code_point st * 64 + Byte.to_N b mod 64)
                         (bytes_seen st + 1) (bytes_needed st) 0x80 0xBF)
    else replacement
         :: fst (lead_byte (Byte.to_N b))
            ++ decode_loop rest (snd (lead_byte (Byte.to_N b))).
Proof.
  intros Hn. cbn [decode_loop]. apply N.eqb_neq in Hn. rewrite Hn.
  rewrite land_63.
  rewrite lor_shiftl_small by (apply N.mod_lt; discriminate).
  reflexivity.
Qed.

Lemma decode_end st :
  bytes_needed st <> 0 -> decode_loop [] st = [replacement].
Proof. intros Hn. cbn [decode_loop]. apply N.eqb_neq in Hn. now rewrite Hn. Qed.

(** A byte that cannot begin a sequence. *)
Lemma lead_invalid x :
  0x80 <= x <= 0xC1 \/ 0xF5 <= x ->
  lead_byte x = ([replacement], decoder_init).
Proof.
  intros H. unfold lead_byte.
  replace (x <=? 0x7F) with false by (symmetry; apply N.leb_gt; lia).
  replace ((0xC2 <=? x) && (x <=? 0xDF)) with false.
  2: { symmetry. apply andb_false_iff. rewrite !N.leb_gt. lia. }
  replace ((0xE0 <=? x) && (x <=? 0xEF)) with false.
  2: { symmetry. apply andb_false_iff. rewrite !N.leb_gt. lia. }
  replace ((0xF0 <=? x) && (x <=? 0xF4)) with false.
  2: { symmetry. apply andb_false_iff. rewrite !N.leb_gt. lia. }
  reflexivity.
Qed.

(** A continuation byte is determined by the six bits it carries. *)
Lemma continuation_eq x (b : byte) :
  0x80 <= Byte.to_N b <= 0xBF -> x mod 64 = Byte.to_N b - 128 ->
  continuation x = b.
Proof.
  intros Hb Hx. rewrite <- (byte_of_to_N (continuation x)), continuation_value.
  rewrite Hx. replace (128 + (Byte.to_N b - 128)) with (Byte.to_N b) by lia.
  apply byte_of_to_N.
Qed.

Lemma lead_eq x (b : byte) : x = Byte.to_N b -> byte_of_N x = b.
Proof. intros ->. apply byte_of_to_N. Qed.

Lemma in_range lo hi x :
  (lo <=? x) && (x <=? hi) = true -> lo <= x <= hi.
Proof. rewrite andb_true_iff, !N.leb_le. tauto. Qed.

Ltac replaced H := exfalso; apply H; left; reflexivity.

(** What the decoder reads without replacing anything is the encoding of
    scalar values: encoding it again gives the bytes back. *)
Lemma decode_no_replacement n : forall bs,
  (List.length bs <= n)%nat ->
  ~ In replacement (decode_loop bs decoder_init) ->
  flat_map encode_code_point (decode_loop bs decoder_init) = bs
  /\ Forall (fun cp => is_scalar cp = true) (decode_loop bs decoder_init).
Proof.
  induction n as [|n IH]; intros bs Hlen H.
  { destruct bs; [|cbn in Hlen; lia]. split; [reflexivity | constructor]. }
  destruct bs as [|b0 r0]; [split; [reflexivity | constructor]|].
  cbn [List.length] in Hlen.
  rewrite decode_lead in H |- *.
  pose proof (to_N_lt b0) as B0.
  set (x0 := Byte.to_N b0) in *.
  destruct (N.le_gt_cases x0 0x7F) as [A | A].
  { (* one byte *)
    rewrite lead_ascii in H |- * by exact A. cbn [fst snd app] in H |- *.
    destruct (IH r0 ltac:(lia) (fun I => H (or_intror I))) as [E S].
    split.
    - cbn [flat_map]. rewrite E, encode_code_point_eq.
      replace (x0 <=? 0x7F) with true by (symmetry; apply N.leb_le; lia).
      cbn [app]. f_equal. now apply lead_eq.
    - constructor; [|exact S]. apply is_scalar_spec. lia. }
  destruct (N.le_gt_cases x0 0xC1) as [A1 | A1].
  { rewrite lead_invalid in H by lia. replaced H. }
  destruct (N.le_gt_cases x0 0xDF) as [A2 | A2].
  { (* two bytes *)
    replace x0 with ((x0 - 0xC0) + 0xC0) in H |- * by lia.
    rewrite lead_two in H |- * by lia. cbn [fst snd app] in H |- *.
    destruct r0 as [|b1 r1]; [rewrite decode_end in H by discriminate; replaced H|].
    rewrite decode_pending in H |- * by discriminate.
    cbn [lower_boundary upper_boundary bytes_seen bytes_needed code_point]
      in H |- *.
    destruct ((0x80 <=? Byte.to_N b1) && (Byte.to_N b1 <=? 0xBF)) eqn:R1;
      [|replaced H].
    apply in_range in R1.
    change (0 + 1 =? 1) with true in H |- *. cbv iota in H |- *.
    cbn [List.length] in Hlen.
    destruct (IH r1 ltac:(lia) (fun I => H (or_intror I))) as [E S].
    set (x1 := Byte.to_N b1) in *.
    split.
    - cbn [flat_map]. rewrite E, encode_code_point_eq.
      replace (_ <=? 0x7F) with false by (symmetry; apply N.leb_gt; lia).
      replace (_ <=? 0x7FF) with true by (symmetry; apply N.leb_le; lia).
      cbn [app]. f_equal; [|f_equal].
      + apply lead_eq. fold x0. lia.
      + apply continuation_eq; fold x1; lia.
    - constructor; [|exact S]. apply is_scalar_spec. lia. }
  destruct (N.le_gt_cases x0 0xEF) as [A3 | A3].
  { (* three bytes *)
    replace x0 with ((x0 - 0xE0) + 0xE0) in H |- * by lia.
    rewrite lead_three in H |- * by lia. cbn [fst snd app] in H |- *.
    destruct r0 as [|b1 r1]; [rewrite decode_end in H by discriminate; replaced H|].
    rewrite decode_pending in H |- * by discriminate.
    cbn [lower_boundary upper_boundary bytes_seen bytes_needed code_point]
      in H |- *.
    match type of H with
    | context [if ?c then _ else _] =>
        destruct c eqn:R1; [|replaced H]
    end.
    apply in_range in R1.
    change (0 + 1 =? 2) with false in H |- *. cbv iota in H |- *.
    change (0 + 1) with 1 in H |- *.
    destruct r1 as [|b2 r2]; [rewrite decode_end in H by discriminate; replaced H|].
    rewrite decode_pending in H |- * by discriminate.
    cbn [lower_boundary upper_boundary bytes_seen bytes_needed code_point]
      in H |- *.
    destruct ((0x80 <=? Byte.to_N b2) && (Byte.to_N b2 <=? 0xBF)) eqn:R2;
      [|replaced H].
    apply in_range in R2.
    change (1 + 1 =? 2) with true in H |- *. cbv iota in H |- *.
    cbn [List.length] in Hlen.
    destruct (IH r2 ltac:(lia) (fun I => H (or_intror I))) as [E S].
    set (x1 := Byte.to_N b1) in *. set (x2 := Byte.to_N b2) in *.
    assert (R1' : 0x80 <= x1 <= 0xBF
                  /\ (x0 = 0xE0 -> 0xA0 <= x1) /\ (x0 = 0xED -> x1 <= 0x9F)).
    { destruct (N.eqb_spec (x0 - 0xE0) 0), (N.eqb_spec (x0 - 0xE0) 13); lia. }
    clear R1. destruct R1' as [R1 [Rl Ru]].
    assert (M1 : x1 mod 64 = x1 - 128) by lia.
    assert (M2 : x2 mod 64 = x2 - 128) by lia.
    rewrite M1, M2 in *.
    split.
    - cbn [flat_map]. rewrite E, encode_code_point_eq.
      replace (_ <=? 0x7F) with false by (symmetry; apply N.leb_gt; lia).
      replace (_ <=? 0x7FF) with false by (symmetry; apply N.leb_gt; lia).
      replace (_ <=? 0xFFFF) with true by (symmetry; apply N.leb_le; lia).
      cbn [app]. f_equal; [|f_equal; [|f_equal]].
      + apply lead_eq. fold x0. lia.
      + apply continuation_eq; fold x1; lia.
      + apply continuation_eq; fold x2; lia.
    - constructor; [|exact S]. apply is_scalar_spec. lia. }
  destruct (N.le_gt_cases x0 0xF4) as [A4 | A4].
  2: { rewrite lead_invalid in H by lia. replaced H. }
  (* four bytes *)
  replace x0 with ((x0 - 0xF0) + 0xF0) in H |- * by lia.
  rewrite lead_four in H |- * by lia. cbn [fst snd app] in H |- *.
  destruct r0 as [|b1 r1]; [rewrite decode_end in H by discriminate; replaced H|].
  rewrite decode_pending in H |- * by discriminate.
  cbn [lower_boundary upper_boundary bytes_seen bytes_needed code_point]
    in H |- *.
  match type of H with
  | context [if ?c then _ else _] =>
      destruct c eqn:R1; [|replaced H]
  end.
  apply in_range in R1.
  change (0 + 1 =? 3) with false in H |- *. cbv iota in H |- *.
  change (0 + 1) with 1 in H |- *.
  destruct r1 as [|b2 r2]; [rewrite decode_end in H by discriminate; replaced H|].
  rewrite decode_pending in H |- * by discriminate.
  cbn [lower_boundary upper_boundary bytes_seen bytes_needed code_point]
    in H |- *.
  destruct ((0x80 <=? Byte.to_N b2) && (Byte.to_N b2 <=? 0xBF)) eqn:R2;
    [|replaced H].
  apply in_range in R2.
  change (1 + 1 =? 3) with false in H |- *. cbv iota in H |- *.
  change (1 + 1) with 2 in H |- *.
  destruct r2 as [|b3 r3]; [rewrite decode_end in H by discriminate; replaced H|].
  rewrite decode_pending in H |- * by discriminate.
  cbn [lower_boundary upper_boundary bytes_seen bytes_needed code_point]
    in H |- *.
  destruct ((0x80 <=? Byte.to_N b3) && (Byte.to_N b3 <=? 0xBF)) eqn:R3;
    [|replaced H].
  apply in_range in R3.
  change (2 + 1 =? 3) with true in H |- *. cbv iota in H |- *.
  cbn [List.length] in Hlen.
  destruct (IH r3 ltac:(lia) (fun I => H (or_intror I))) as [E S].
  set (x1 := Byte.to_N b1) in *. set (x2 := Byte.to_N b2) in *.
  set (x3 := Byte.to_N b3) in *.
  assert (R1' : 0x80 <= x1 <= 0xBF
                /\ (x0 = 0xF0 -> 0x90 <= x1) /\ (x0 = 0xF4 -> x1 <= 0x8F)).
  { destruct (N.eqb_spec (x0 - 0xF0) 0), (N.eqb_spec (x0 - 0xF0) 4); lia. }
  clear R1. destruct R1' as [R1 [Rl Ru]].
  assert (M1 : x1 mod 64 = x1 - 128) by lia.
  assert (M2 : x2 mod 64 = x2 - 128) by lia.
  assert (M3 : x3 mod 64 = x3 - 128) by lia.
  rewrite M1, M2, M3 in *.
  split.
  - cbn [flat_map]. rewrite E, encode_code_point_eq.
    replace (_ <=? 0x7F) with false by (symmetry; apply N.leb_gt; lia).
    replace (_ <=? 0x7FF) with false by (symmetry; apply N.leb_gt; lia).
    replace (_ <=? 0xFFFF) with false by (symmetry; apply N.leb_gt; lia).
    cbn [app]. f_equal; [|f_equal; [|f_equal; [|f_equal]]].
    + apply lead_eq. fold x0. lia.
    + apply continuation_eq; fold x1; lia.
    + apply continuation_eq; fold x2; lia.
    + apply continuation_eq; fold x3; lia.
  - constructor; [|exact S]. apply is_scalar_spec. lia.
Qed.

Lemma bytes_eqb_refl u : bytes_eqb u u = true.
Proof.
  induction u as [|a u IH]; [reflexivity|].
  cbn [bytes_eqb]. rewrite IH, Byte.byte_dec_lb; reflexivity.
Qed.

(** The encoding of scalar values is read back without a replacement. *)
Lemma utf8_valid bs : is_utf8 bs -> valid_utf8 bs = true.
Proof.
  intros [cps [S E]]. subst bs. unfold valid_utf8.
  rewrite decode_scalars by exact S. apply bytes_eqb_refl.
Qed.

Lemma valid_utf8_false bs : valid_utf8 bs = false -> ~ is_utf8 bs.
Proof.
  intros H U. apply utf8_valid in U. rewrite U in H. discriminate H.
Qed.

(** Bytes that are not UTF-8 leave a U+FFFD in what the decoder reads. *)
Lemma not_utf8_replaced bs :
  ~ is_utf8 bs -> In replacement (decode_loop bs decoder_init).
Proof.
  intros NU.
  destruct (in_dec N.eq_dec replacement (decode_loop bs decoder_init))
    as [I | I]; [exact I|].
  exfalso. apply NU.
  destruct (@decode_no_replacement (List.length bs) bs (le_n _) I) as [E S].
  exists (decode_loop bs decoder_init). now split.
Qed.

Lemma replaced_in_text bs :
  In replacement (decode_loop bs decoder_init) ->
  In replacement (TextDecoder_decode bs).
Proof.
  unfold TextDecoder_decode. intros I.
  apply in_flat_map. exists replacement. split; [|left; reflexivity].
  unfold strip_bom.
  destruct (decode_loop bs decoder_init) as [|c rest]; [destruct I|].
  destruct (N.eqb_spec c bom) as [B | B]; [|exact I].
  destruct I as [E | I]; [|exact I].
  rewrite B in E. discriminate E.
Qed.

(** The text of bytes that are UTF-8: the scalar values they encode, a
    leading U+FEFF dropped. *)
Lemma TextDecoder_decode_scalars cps :
  Forall (fun cp => is_scalar cp = true) cps ->
  TextDecoder_decode (flat_map encode_code_point cps)
  = flat_map code_units (strip_bom cps).
Proof.
  intros S. unfold TextDecoder_decode. now rewrite decode_scalars.
Qed.

End Utf8Reads.

(* ------------------------------------------------------------------ *)
(** ** Base64: what the forgiving decoder reads *)

Module Base64Reads.
Import Base64.

(** Node's table gives a byte the value it has in the alphabets of
    RFC 4648. *)
Lemma unbase64_rfc4648 c : c < 256 -> unbase64 c = rfc4648_value c.
Proof.
  intros H. rewrite <- (BytesFacts.to_N_byte_of_N H).
  apply Base64Facts.opt_N_eqb_eq. generalize (byte_of_N c).
  apply BytesFacts.forall_byte_spec. vm_compute. reflexivity.
Qed.

Lemma low_byte_lt u : low_byte u < 256.
Proof. unfold low_byte. now apply N.mod_lt. Qed.

Lemma in_alphabet_low_byte u :
  in_alphabet (low_byte u)
  = match unbase64 (low_byte u) with
    | Some _ => true
    | None => false
    end.
Proof.
  unfold in_alphabet. now rewrite unbase64_rfc4648 by apply low_byte_lt.
Qed.

Lemma loop_significant s : forall phase hi,
  from_base64_loop s phase hi = from_base64_loop (significant s) phase hi.
Proof.
  unfold significant.
  induction s as [|u rest IH]; intros phase hi; [reflexivity|].
  cbn [from_base64_loop before_pad map].
  destruct (unbase64 (low_byte u)) as [lo|] eqn:U.
  - assert (Hc : (low_byte u =? pad_char) = false).
    { destruct (N.eqb_spec (low_byte u) pad_char) as [E|]; [|reflexivity].
      rewrite E in U. discriminate. }
    rewrite Hc. cbn [filter]. rewrite in_alphabet_low_byte, U.
    cbn [from_base64_loop].
    rewrite Base64Facts.low_byte_idem, U.
    destruct phase as [|[|[|n]]]; rewrite <- IH; reflexivity.
  - destruct (low_byte u =? pad_char); [reflexivity|].
    cbn [filter]. rewrite in_alphabet_low_byte, U. apply IH.
Qed.

Lemma from_base64_significant s :
  from_base64 s = from_base64 (significant s).
Proof. apply loop_significant. Qed.

End Base64Reads.

(* ------------------------------------------------------------------ *)
(** ** Base64: the decoder against RFC 4648 *)

Module Base64Spec.
Import Base64 BytesFacts.

Lemma forall_sextet2 (f : N -> N -> bool) :
  forallb (fun a => forallb (f a) sextets) sextets = true ->
  forall a b, a < 64 -> b < 64 -> f a b = true.
Proof.
  intros H a b Ha Hb.
  assert (I : forall x, x < 64 -> In x sextets).
  { intros x Hx. unfold sextets. rewrite <- (N2Nat.id x).
    apply in_map, in_seq. lia. }
  rewrite forallb_forall in H. specialize (H a (I a Ha)).
  rewrite forallb_forall in H. exact (H b (I b Hb)).
Qed.

Lemma byte1_spec a b : a < 64 -> b < 64 ->
  byte_of_N (N.lor (N.shiftl (N.land a 63) 2) (N.shiftr (N.land b 48) 4))
  = byte_of_N (N.shiftr (64 * a + b) 4).
Proof.
  intros Ha Hb. apply Byte.byte_dec_bl.
  exact (@forall_sextet2
           (fun a b =>
              Byte.eqb
                (byte_of_N (N.lor (N.shiftl (N.land a 63) 2)
                                  (N.shiftr (N.land b 48) 4)))
                (byte_of_N (N.shiftr (64 * a + b) 4)))
           eq_refl a b Ha Hb).
Qed.

Lemma byte2_spec a b : a < 64 -> b < 64 ->
  byte_of_N (N.lor (N.shiftl (N.land a 15) 4) (N.shiftr (N.land b 60) 2))
  = byte_of_N (N.shiftr (64 * a + b) 2).
Proof.
  intros Ha Hb. apply Byte.byte_dec_bl.
  exact (@forall_sextet2
           (fun a b =>
              Byte.eqb
                (byte_of_N (N.lor (N.shiftl (N.land a 15) 4)
                                  (N.shiftr (N.land b 60) 2)))
                (byte_of_N (N.shiftr (64 * a + b) 2)))
           eq_refl a b Ha Hb).
Qed.

Lemma byte3_spec a b : a < 64 -> b < 64 ->
  byte_of_N (N.lor (N.shiftl (N.land a 3) 6) (N.land b 63))
  = byte_of_N (N.shiftr (64 * a + b) 0).
Proof.
  intros Ha Hb. apply Byte.byte_dec_bl.
  exact (@forall_sextet2
           (fun a b =>
              Byte.eqb
                (byte_of_N (N.lor (N.shiftl (N.land a 3) 6) (N.land b 63)))
                (byte_of_N (N.shiftr (64 * a + b) 0)))
           eq_refl a b Ha Hb).
Qed.

Lemma index_of_spec c l : forall v,
  index_of c l = Some v -> In c l /\ v < N.of_nat (List.length l).
Proof.
  induction l as [|x l IH]; intros v H; [discriminate H|].
  cbn [index_of] in H. destruct (N.eqb_spec c x) as [E | E].
  - injection H as <-. split; [now left | cbn [List.length]; lia].
  - destruct (index_of c l) as [i|]; [|discriminate H].
    injection H as <-. destruct (IH i eq_refl) as [I L].
    split; [now right | cbn [List.length]; lia].
Qed.

Lemma rfc4648_value_small c v :
  rfc4648_value c = Some v -> c < 256 /\ v < 64.
Proof.
  unfold rfc4648_value. intros H.
  assert (A : forall l, forallb (fun x => x <? 256) l = true ->
                        (List.length l <=? 64)%nat = true ->
                        index_of c l = Some v -> c < 256 /\ v < 64).
  { intros l Hl Hn Hi. apply index_of_spec in Hi. destruct Hi as [I L].
    rewrite forallb_forall in Hl. apply Hl in I. apply N.ltb_lt in I.
    apply Nat.leb_le in Hn. split; [exact I | lia]. }
  destruct (index_of c standard_alphabet) as [i|] eqn:E.
  - injection H as <-. exact (A standard_alphabet eq_refl eq_refl E).
  - exact (A url_safe_alphabet eq_refl eq_refl H).
Qed.

(** A character of the alphabets is its own low byte and stands for a
    sextet, the one Node's table gives it. *)
Lemma in_alphabet_spec c :
  in_alphabet c = true ->
  low_byte c = c /\ unbase64 c = Some (sextet_value c) /\ sextet_value c < 64.
Proof.
  unfold in_alphabet, sextet_value, low_byte.
  destruct (rfc4648_value c) as [v|] eqn:V; [intros _ | discriminate].
  destruct (@rfc4648_value_small c v V) as [Hc Hv].
  split; [now apply N.mod_small | split; [|exact Hv]].
  now rewrite Base64Reads.unbase64_rfc4648.
Qed.

Lemma list_ind4 (A : Type) (Q : list A -> Prop) :
  Q [] -> (forall a, Q [a]) -> (forall a b, Q [a; b]) ->
  (forall a b c, Q [a; b; c]) ->
  (forall a b c d l, Q l -> Q (a :: b :: c :: d :: l)) ->
  forall l, Q l.
Proof.
  intros H0 H1 H2 H3 H4 l.
  assert (H : Q l /\ (forall a, Q (a :: l)) /\ (forall a b, Q (a :: b :: l))
              /\ (forall a b c, Q (a :: b :: c :: l))).
  { induction l as [|x l [IH0 [IH1 [IH2 IH3]]]]; repeat split; auto. }
  apply H.
Qed.

Lemma rfc4648_byte_shift a b c d vs k :
  rfc4648_byte (a :: b :: c :: d :: vs) (3 + k) = rfc4648_byte vs k.
Proof.
  unfold rfc4648_byte.
  replace (4 * (3 + k) / 3)%nat with (4 + 4 * k / 3)%nat.
  - replace ((3 + k) mod 3)%nat with (k mod 3)%nat; [reflexivity|].
    replace (3 + k)%nat with (k + 1 * 3)%nat by lia.
    now rewrite Nat.Div0.mod_add.
  - replace (4 * (3 + k))%nat with (4 * k + 4 * 3)%nat by lia.
    rewrite Nat.div_add by discriminate. lia.
Qed.

Lemma rfc4648_decode_group a b c d vs :
  rfc4648_decode (a :: b :: c :: d :: vs)
  = rfc4648_byte [a; b] 0 :: rfc4648_byte [a; b; c] 1
    :: rfc4648_byte [a; b; c; d] 2 :: rfc4648_decode vs.
Proof.
  unfold rfc4648_decode. cbn [List.length].
  replace (3 * S (S (S (S (List.length vs)))) / 4)%nat
    with (3 + 3 * List.length vs / 4)%nat.
  - cbn [Nat.add seq map]. f_equal. f_equal. f_equal.
    rewrite <- seq_shift, <- seq_shift, <- seq_shift, !map_map.
    apply map_ext. intro k. apply (rfc4648_byte_shift a b c d vs k).
  - replace (3 * S (S (S (S (List.length vs)))))%nat
      with (3 * List.length vs + 3 * 4)%nat by lia.
    rewrite Nat.div_add by discriminate. lia.
Qed.

(** On characters of the alphabet the decoder computes the bytes of the
    specification. *)
Lemma loop_rfc4648 cs : forall h,
  forallb in_alphabet cs = true ->
  from_base64_loop cs 0 h = rfc4648_decode (map sextet_value cs).
Proof.
  induction cs as [| a | a b | a b c | a b c d rest IH] using list_ind4;
    intros h H; cbn [forallb] in H; rewrite ?andb_true_iff in H.
  - reflexivity.
  - destruct H as [Ha _]. apply in_alphabet_spec in Ha.
    destruct Ha as [La [Ua _]].
    cbn [from_base64_loop map]. rewrite La, Ua. reflexivity.
  - destruct H as [Ha [Hb _]].
    apply in_alphabet_spec in Ha, Hb.
    destruct Ha as [La [Ua Va]], Hb as [Lb [Ub Vb]].
    cbn [from_base64_loop map]. rewrite La, Ua, Lb, Ub.
    rewrite byte1_spec by assumption. reflexivity.
  - destruct H as [Ha [Hb [Hc _]]].
    apply in_alphabet_spec in Ha, Hb, Hc.
    destruct Ha as [La [Ua Va]], Hb as [Lb [Ub Vb]], Hc as [Lc [Uc Vc]].
    cbn [from_base64_loop map]. rewrite La, Ua, Lb, Ub, Lc, Uc.
    rewrite byte1_spec, byte2_spec by assumption. reflexivity.
  - destruct H as [Ha [Hb [Hc [Hd Hr]]]].
    apply in_alphabet_spec in Ha, Hb, Hc, Hd.
    destruct Ha as [La [Ua Va]], Hb as [Lb [Ub Vb]], Hc as [Lc [Uc Vc]],
      Hd as [Ld [Ud Vd]].
    cbn [from_base64_loop map]. rewrite La, Ua, Lb, Ub, Lc, Uc, Ld, Ud.
    rewrite byte1_spec, byte2_spec, byte3_spec by assumption.
    rewrite rfc4648_decode_group. do 3 f_equal. apply IH, Hr.
Qed.

Lemma significant_in_alphabet s : forallb in_alphabet (significant s) = true.
Proof.
  unfold significant. apply forallb_forall. intros c Hc.
  apply filter_In in Hc. apply Hc.
Qed.

Lemma from_base64_rfc4648 s :
  from_base64 s = rfc4648_decode (map sextet_value (significant s)).
Proof.
  rewrite Base64Reads.from_base64_significant. unfold from_base64.
  apply loop_rfc4648, significant_in_alphabet.
Qed.

(** Code units above U+00FF: U+4141 is read as 'A', and U+D83D as '=',
    which ends the decoding. *)
Lemma from_base64_low_byte :
  from_base64 (js "QUJD" ++ 0x4141 :: js "QUJD") = hex "414243010509"
  /\ from_base64 (js "QUJD" ++ 0xD83D :: js "QUJD") = hex "414243"
  /\ from_base64 (0xD83D :: repeat 65 256) = [].
Proof. repeat split; vm_compute; reflexivity. Qed.

Lemma length_rfc4648_decode vs :
  List.length (rfc4648_decode vs) = (3 * List.length vs / 4)%nat.
Proof. unfold rfc4648_decode. now rewrite length_map, length_seq. Qed.

End Base64Spec.

(* ------------------------------------------------------------------ *)
(** ** The encoder's output, and CBC under a fixed or a changed IV *)

Module ModeFacts.
Import Base64 Aes Cbc BytesFacts AesFacts CbcFacts.

Lemma is_standard_b64_char x : is_standard_char (b64_char x) = true.
Proof.
  unfold is_standard_char, b64_char.
  destruct (N.ltb_spec x 26) as [H1 | H1].
  { replace ((65 <=? 65 + x) && (65 + x <=? 90)) with true; [reflexivity|].
    symmetry. rewrite andb_true_iff, !N.leb_le. lia. }
  destruct (N.ltb_spec x 52) as [H2 | H2].
  { replace ((97 <=? 97 + (x - 26)) && (97 + (x - 26) <=? 122)) with true;
      [now rewrite orb_true_r|].
    symmetry. rewrite andb_true_iff, !N.leb_le. lia. }
  destruct (N.ltb_spec x 62) as [H3 | H3].
  { replace ((48 <=? 48 + (x - 52)) && (48 + (x - 52) <=? 57)) with true;
      [now rewrite !orb_true_r|].
    symmetry. rewrite andb_true_iff, !N.leb_le. lia. }
  destruct (x =? 62); reflexivity.
Qed.

Lemma before_pad_body body k :
  forallb is_standard_char body = true ->
  before_pad (body ++ repeat pad_char k) = body.
Proof.
  induction body as [|c body IH]; cbn [app before_pad forallb]; intros H.
  - destruct k; reflexivity.
  - apply andb_true_iff in H. destruct H as [Hc Hb].
    destruct (N.eqb_spec c pad_char) as [E | _].
    + subst c. discriminate Hc.
    + now rewrite IH.
Qed.

(** The encoder writes characters of the standard alphabet, then as many
    '=' as it takes to fill the last group of four. *)
Lemma to_base64_shape bs :
  exists body k,
    to_base64 bs = body ++ repeat pad_char k
    /\ (k <= 2)%nat
    /\ forallb is_standard_char body = true
    /\ (List.length body + k = 4 * ((List.length bs + 2) / 3))%nat.
Proof.
  induction bs as [| a | a b | a b c rest IH] using Base64Facts.list_ind3.
  - exists [], 0%nat. repeat split; auto.
  - eexists [_; _], 2%nat. cbn [to_base64 app repeat].
    split; [reflexivity|]. split; [lia|]. split; [|reflexivity].
    cbn [forallb]. now rewrite !is_standard_b64_char.
  - eexists [_; _; _], 1%nat. cbn [to_base64 app repeat].
    split; [reflexivity|]. split; [lia|]. split; [|reflexivity].
    cbn [forallb]. now rewrite !is_standard_b64_char.
  - destruct IH as [body [k [E [Hk [Hs Hl]]]]].
    eexists (_ :: _ :: _ :: _ :: body), k.
    cbn [to_base64]. rewrite E. cbn [app].
    split; [reflexivity|]. split; [exact Hk|]. split.
    + cbn [forallb]. now rewrite !is_standard_b64_char, Hs.
    + cbn [List.length].
      replace (S (S (S (List.length rest))) + 2)%nat
        with (List.length rest + 2 + 1 * 3)%nat by lia.
      rewrite Nat.div_add by discriminate. lia.
Qed.

(** *** Blocks of a prefix *)

(** The encoder writes standard base64. *)
Lemma to_base64_valid b : valid_base64 (to_base64 b) = true.
Proof.
  destruct (to_base64_shape b) as [body [k [E [Hk [Hs Hl]]]]].
  assert (L : List.length (to_base64 b)
              = (4 * ((List.length b + 2) / 3))%nat).
  { rewrite E, length_app, repeat_length. exact Hl. }
  unfold valid_base64. rewrite L.
  rewrite E, before_pad_body by exact Hs.
  rewrite skipn_app, skipn_all, Nat.sub_diag. cbn [app skipn].
  rewrite Hs, repeat_length.
  replace (4 * ((List.length b + 2) / 3))%nat
    with ((List.length b + 2) / 3 * 4)%nat by lia.
  rewrite Nat.Div0.mod_mul. cbn [Nat.eqb andb].
  apply andb_true_iff. split; [|now apply Nat.leb_le].
  clear. induction k as [|k IH]; [reflexivity|].
  cbn [repeat forallb]. now rewrite IH, N.eqb_refl.
Qed.

Lemma blocks_of_bytes_app j : forall pre rest,
  List.length pre = (16 * j)%nat ->
  blocks_of_bytes (pre ++ rest) = blocks_of_bytes pre ++ blocks_of_bytes rest.
Proof.
  induction j as [|j IH]; intros pre rest H.
  - destruct pre; [reflexivity | discriminate].
  - do 16 (destruct pre as [|? pre]; [cbn [List.length] in H; lia|]).
    cbn [List.length] in H.
    cbn [app blocks_of_bytes]. rewrite IH by lia. reflexivity.
Qed.

Lemma encrypt_blocks_app key : forall A B iv,
  exists iv',
    encrypt_blocks key iv (A ++ B)
    = encrypt_blocks key iv A ++ encrypt_blocks key iv' B.
Proof.
  induction A as [|p A IH]; intros B iv.
  - exists iv. reflexivity.
  - cbn [app encrypt_blocks].
    destruct (IH B (encrypt_block key (block_xor p iv))) as [iv' E].
    exists iv'. now rewrite E.
Qed.

(** The first 16 j bytes of a ciphertext depend on the first 16 j bytes of
    the data only. *)
Lemma aes_cbc_encrypt_prefix key iv data j :
  (16 * j <= List.length data)%nat ->
  firstn (16 * j) (aes_cbc_encrypt key iv data)
  = flat_map bytes_of_block
      (encrypt_blocks key iv (blocks_of_bytes (firstn (16 * j) data))).
Proof.
  intros H.
  assert (Lp : List.length (firstn (16 * j) data) = (16 * j)%nat)
    by (rewrite length_firstn; lia).
  unfold aes_cbc_encrypt, pkcs7_pad.
  rewrite <- (firstn_skipn (16 * j) data) at 1.
  rewrite <- app_assoc, (blocks_of_bytes_app j) by exact Lp.
  destruct (encrypt_blocks_app key (blocks_of_bytes (firstn (16 * j) data))
              (blocks_of_bytes
                 (skipn (16 * j) data
                  ++ repeat (byte_of_N (N.of_nat (16 - List.length data mod 16)))
                       (16 - List.length data mod 16))) iv) as [iv' E].
  rewrite E, flat_map_app.
  rewrite firstn_app.
  destruct (@blocks_exact j _ Lp) as [Lb _].
  rewrite length_flat, length_encrypt_blocks, Lb, Nat.sub_diag.
  cbn [firstn]. rewrite app_nil_r.
  apply firstn_all2. rewrite length_flat, length_encrypt_blocks, Lb. lia.
Qed.

(** Changing bytes that come before the last sixteen leaves the padding
    valid. *)
Lemma pkcs7_pad_change_head A A' rest :
  List.length A = List.length A' ->
  (16 <= List.length A)%nat ->
  exists T,
    pkcs7_pad (A ++ rest) = A ++ T
    /\ pkcs7_unpad (A' ++ T) = Some (A' ++ rest).
Proof.
  intros L H16. unfold pkcs7_pad.
  exists (rest ++ repeat (byte_of_N (N.of_nat (16 - List.length (A ++ rest) mod 16)))
                    (16 - List.length (A ++ rest) mod 16)).
  split; [now rewrite app_assoc|].
  rewrite app_assoc. apply pkcs7_unpad_app.
  pose proof (Nat.mod_upper_bound (List.length (A ++ rest)) 16). lia.
Qed.

(** Decryption under another IV of data of sixteen bytes or more does not
    fail: it returns the data with its first block changed. *)
Lemma aes_cbc_decrypt_other_iv key iv iv' data :
  (16 <= List.length data)%nat ->
  aes_cbc_decrypt key iv' (aes_cbc_encrypt key iv data)
  = Some (bytes_of_block
            (block_xor (block_xor (block_of_bytes data) iv) iv')
          ++ skipn 16 data).
Proof.
  intros H.
  rewrite aes_cbc_decrypt_unfold.
  rewrite <- (firstn_skipn 16 data) at 1.
  assert (L16 : List.length (firstn 16 data) = (16 * 1)%nat)
    by (rewrite length_firstn; lia).
  destruct (@pkcs7_pad_change_head (firstn 16 data)
              (bytes_of_block
                 (block_xor (block_xor (block_of_bytes data) iv) iv'))
              (skipn 16 data)) as [T [E U]].
  { rewrite L16. reflexivity. }
  { lia. }
  rewrite E, (blocks_of_bytes_app 1) by exact L16.
  assert (B1 : blocks_of_bytes (firstn 16 data) = [block_of_bytes data]).
  { unfold block_of_bytes.
    do 16 (destruct data as [|? data]; [cbn [List.length] in H; lia|]).
    reflexivity. }
  rewrite B1. cbn [app].
  rewrite decrypt_blocks_other_iv. cbn [flat_map].
  assert (FT : flat_map bytes_of_block (blocks_of_bytes T) = T).
  { pose proof (length_pkcs7_pad (firstn 16 data ++ skipn 16 data)) as LP.
    rewrite E, length_app, L16 in LP.
    destruct (@blocks_exact (List.length (firstn 16 data ++ skipn 16 data) / 16)
                T) as [_ F]; [lia | exact F]. }
  rewrite FT. exact U.
Qed.

End ModeFacts.

(* ------------------------------------------------------------------ *)
(** ** The module's functions *)

Module CryptoFacts.
Import Crypto Subtle Scenario.

(** *** Running calls *)

Lemma bind_ok (A B : Type) (c : M A) (k : A -> M B) w a w' :
  c w = (Ok a, w') -> (x <- c ;; k x) w = k a w'.
Proof. intros H. unfold bind. now rewrite H. Qed.

Lemma bind_err (A B : Type) (c : M A) (k : A -> M B) w e w' :
  c w = (Err e, w') -> (x <- c ;; k x) w = (Err e, w').
Proof. intros H. unfold bind. now rewrite H. Qed.

Lemma draws_nothing_ret (A : Type) (a : A) : draws_nothing (ret a).
Proof. intros w w'. now split. Qed.

Lemma draws_nothing_throw (A : Type) e : draws_nothing (@throw A e).
Proof. intros w w'. now split. Qed.

Lemma draws_nothing_lift (A : Type) (r : result A) : draws_nothing (lift r).
Proof. intros w w'. now split. Qed.

Lemma draws_nothing_lift_option (A : Type) e (o : option A) :
  draws_nothing (lift_option e o).
Proof. destruct o; [apply draws_nothing_ret | apply draws_nothing_throw]. Qed.

Lemma draws_nothing_bind (A B : Type) (c : M A) (k : A -> M B) :
  draws_nothing c -> (forall a, draws_nothing (k a)) ->
  draws_nothing (x <- c ;; k x).
Proof.
  intros Hc Hk w w'. unfold bind.
  destruct (Hc w w') as [E1 S1]. destruct (Hc w' w') as [_ S2].
  destruct (c w) as [r1 w1], (c w') as [r2 w2]. cbn [fst snd] in *.
  subst r2 w1 w2. destruct r1 as [a | e].
  - apply Hk.
  - now split.
Qed.

Section WithRsa.
Context {P : RsaProvider}.

Lemma load_run w :
  load w
  = (Ok {| iv := map (fun i => tape w (cursor w + i)%nat) (seq 0 16) |},
     World (tape w) (cursor w + 16)).
Proof. reflexivity. Qed.

Lemma load_iv_length w m w' :
  load w = (Ok m, w') -> List.length (iv m) = 16%nat.
Proof.
  rewrite load_run. intros H. injection H as H _. subst m.
  reflexivity.
Qed.

Lemma createRandomSymmetricKey_run w :
  createRandomSymmetricKey w
  = (Ok {| material :=
             AesSecret (map (fun i => tape w (cursor w + i)%nat) (seq 0 32));
           extractable := true;
           usages := [Encrypt; Decrypt] |},
     World (tape w) (cursor w + 32)).
Proof. reflexivity. Qed.

Lemma symEncrypt_run m key bytes s w :
  material key = AesSecret bytes ->
  has_usage Encrypt key = true ->
  List.length (iv m) = 16%nat ->
  symEncrypt m key s w
  = (Ok (arrayBufferToBase64
           (Cbc.aes_cbc_encrypt bytes (Aes.block_of_bytes (iv m))
              (Utf8.TextEncoder_encode s))), w).
Proof.
  intros Hm Hu Hl. unfold symEncrypt, bind, encrypt.
  rewrite Hm, Hu, Hl. reflexivity.
Qed.

Lemma exportSymKey_run key bytes w :
  material key = AesSecret bytes -> extractable key = true ->
  exportSymKey key w = (Ok (arrayBufferToBase64 bytes), w).
Proof.
  intros Hm He. unfold exportSymKey, bind, exportKey.
  rewrite Hm, He. reflexivity.
Qed.

Lemma importSymKey_run strKey w :
  aes_key_length (List.length (Base64.from_base64 strKey)) = true ->
  importSymKey strKey w
  = (Ok {| material := AesSecret (Base64.from_base64 strKey);
           extractable := true; usages := [Encrypt; Decrypt] |}, w).
Proof.
  intros H. unfold importSymKey, bind, lift, base64ToArrayBuffer,
    importKey_raw_aes.
  rewrite H. reflexivity.
Qed.

Lemma symDecrypt_run m strKey ct w :
  aes_key_length (List.length (Base64.from_base64 strKey)) = true ->
  List.length (iv m) = 16%nat ->
  symDecrypt m strKey ct w
  = (match Cbc.aes_cbc_decrypt (Base64.from_base64 strKey)
             (Aes.block_of_bytes (iv m)) (Base64.from_base64 ct) with
     | Some pt => Ok (Utf8.TextDecoder_decode pt)
     | None => Err CryptoOperationError
     end, w).
Proof.
  intros Hk Hl. unfold symDecrypt.
  erewrite bind_ok by (apply importSymKey_run; exact Hk).
  unfold bind, lift, base64ToArrayBuffer, decrypt.
  cbn [material has_usage usages existsb key_usage_eqb orb negb].
  rewrite Hl. cbn [Nat.eqb negb].
  destruct (Cbc.aes_cbc_decrypt _ _ _); reflexivity.
Qed.

Lemma symDecrypt_bad_key m strKey ct w :
  aes_key_length (List.length (Base64.from_base64 strKey)) = false ->
  symDecrypt m strKey ct w = (Err KeyFormatError, w).
Proof.
  intros Hk. unfold symDecrypt, importSymKey, bind, lift,
    base64ToArrayBuffer, importKey_raw_aes.
  rewrite Hk. reflexivity.
Qed.

Lemma draws_nothing_exportKey format key : draws_nothing (exportKey format key).
Proof.
  unfold exportKey. destruct (negb (extractable key));
    [apply draws_nothing_throw|].
  destruct format, (material key);
    first [apply draws_nothing_ret | apply draws_nothing_throw].
Qed.

Lemma draws_nothing_decrypt params key data :
  draws_nothing (decrypt params key data).
Proof.
  unfold decrypt. destruct params, (material key);
    try apply draws_nothing_throw;
    destruct (negb (has_usage Decrypt key));
    try apply draws_nothing_throw;
    try apply draws_nothing_lift_option.
  destruct (negb (List.length iv0 =? 16)%nat);
    [apply draws_nothing_throw | apply draws_nothing_lift_option].
Qed.

Lemma draws_nothing_encrypt_aes iv0 key data :
  draws_nothing (encrypt (AesCbc iv0) key data).
Proof.
  unfold encrypt. destruct (material key); try apply draws_nothing_throw.
  destruct (negb (has_usage Encrypt key)); [apply draws_nothing_throw|].
  destruct (negb (List.length iv0 =? 16)%nat);
    [apply draws_nothing_throw | apply draws_nothing_ret].
Qed.

Lemma draws_nothing_importKey_raw_aes data ext us :
  draws_nothing (importKey_raw_aes data ext us).
Proof.
  unfold importKey_raw_aes. destruct (aes_key_length _);
    [apply draws_nothing_ret | apply draws_nothing_throw].
Qed.

Lemma generateRsaKeyPair_run w :
  let kp := rsa_keygen 2048
              (map (fun i => tape w (cursor w + i)%nat) (seq 0 keygen_draw)) in
  generateRsaKeyPair w
  = (Ok {| publicKey := {| material := RsaPublic (fst kp);
                           extractable := true; usages := [Encrypt] |};
           privateKey := {| material := RsaPrivate (snd kp);
                            extractable := true; usages := [Decrypt] |} |},
     World (tape w) (cursor w + keygen_draw)).
Proof. reflexivity. Qed.

Lemma exportPubKey_run key pk w :
  material key = RsaPublic pk -> extractable key = true ->
  exportPubKey key w = (Ok (arrayBufferToBase64 (spki_encode pk)), w).
Proof.
  intros Hm He. unfold exportPubKey, bind, exportKey.
  rewrite Hm, He. reflexivity.
Qed.

Lemma seed_ext w w' n :
  (forall i, (i < n)%nat ->
     tape w (cursor w + i)%nat = tape w' (cursor w' + i)%nat) ->
  map (fun i => tape w (cursor w + i)%nat) (seq 0 n)
  = map (fun i => tape w' (cursor w' + i)%nat) (seq 0 n).
Proof.
  intros H. apply map_ext_in. intros i Hi. apply in_seq in Hi. apply H. lia.
Qed.

Lemma importPubKey_any k w :
  importPubKey k w
  = (match spki_decode (Base64.from_base64 k) with
     | Some pk => Ok {| material := RsaPublic pk; extractable := true;
                        usages := [Encrypt] |}
     | None => Err KeyFormatError
     end, w).
Proof.
  unfold importPubKey, importKey_spki, base64ToArrayBuffer.
  unfold bind, lift, lift_option.
  destruct (spki_decode _); reflexivity.
Qed.

(** rsaEncrypt on any key string: the key is imported, a seed of 32 bytes
    is drawn, the decoded payload is encrypted. *)
Lemma rsaEncrypt_any d k w :
  rsaEncrypt d k w
  = match spki_decode (Base64.from_base64 k) with
    | None => (Err KeyFormatError, w)
    | Some pk =>
        (match oaep_encrypt pk
                 (map (fun i => tape w (cursor w + i)%nat) (seq 0 32))
                 (Base64.from_base64 d) with
         | Some ct => Ok (arrayBufferToBase64 ct)
         | None => Err PayloadTooLargeError
         end, World (tape w) (cursor w + 32))
    end.
Proof.
  unfold rsaEncrypt.
  unfold bind at 1. unfold lift at 1. unfold base64ToArrayBuffer at 1.
  unfold bind at 1. rewrite importPubKey_any.
  destruct (spki_decode _) as [pk|]; [|reflexivity].
  unfold encrypt.
  cbn [material has_usage usages existsb key_usage_eqb orb negb].
  unfold bind, getRandomValues, lift_option. cbv beta.
  destruct (oaep_encrypt _ _ _); reflexivity.
Qed.

Lemma rsaEncrypt_seed d k w w' :
  (forall i, (i < 32)%nat ->
     tape w (cursor w + i)%nat = tape w' (cursor w' + i)%nat) ->
  fst (rsaEncrypt d k w) = fst (rsaEncrypt d k w').
Proof.
  intros H. apply seed_ext in H.
  rewrite !rsaEncrypt_any, H.
  destruct (spki_decode _); reflexivity.
Qed.

Lemma generateRsaKeyPair_entropy w w' :
  (forall i, (i < keygen_draw)%nat ->
     tape w (cursor w + i)%nat = tape w' (cursor w' + i)%nat) ->
  fst (generateRsaKeyPair w) = fst (generateRsaKeyPair w').
Proof.
  intros H. apply seed_ext in H.
  rewrite !generateRsaKeyPair_run. cbn [fst]. now rewrite H.
Qed.

Section WithContract.
Context {C : RsaContract P}.

Lemma importPubKey_run pk w :
  importPubKey (arrayBufferToBase64 (spki_encode pk)) w
  = (Ok {| material := RsaPublic pk; extractable := true;
           usages := [Encrypt] |}, w).
Proof.
  unfold importPubKey, bind, lift, base64ToArrayBuffer, arrayBufferToBase64,
    importKey_spki.
  rewrite Base64Facts.from_to_base64, spki_round_trip. reflexivity.
Qed.

Lemma rsaEncrypt_run b64Data pk w :
  rsaEncrypt b64Data (arrayBufferToBase64 (spki_encode pk)) w
  = (match oaep_encrypt pk
             (map (fun i => tape w (cursor w + i)%nat) (seq 0 32))
             (Base64.from_base64 b64Data) with
     | Some ct => Ok (arrayBufferToBase64 ct)
     | None => Err PayloadTooLargeError
     end, World (tape w) (cursor w + 32)).
Proof.
  unfold rsaEncrypt.
  unfold bind at 1. unfold lift at 1. unfold base64ToArrayBuffer at 1.
  erewrite bind_ok by apply importPubKey_run.
  unfold encrypt.
  cbn [material has_usage usages existsb key_usage_eqb orb negb].
  unfold bind, getRandomValues, lift_option. cbv beta.
  destruct (oaep_encrypt _ _ _); reflexivity.
Qed.

(** C3: a payload of at most 190 bytes, encrypted to the exported public
    key of a generated pair and decrypted with the pair's private key, comes
    back (as base64), for every RSA-OAEP provider that meets the
    contract. *)
Theorem C3_rsa_round_trip (p : list byte) (w : world) :
  (List.length p <= 190)%nat ->
  fst (rsa_round_trip p w) = Ok (arrayBufferToBase64 p).
Proof.
  intros Hp. unfold rsa_round_trip.
  erewrite bind_ok by apply generateRsaKeyPair_run.
  cbn [publicKey privateKey].
  erewrite bind_ok by (apply exportPubKey_run; reflexivity).
  set (kp := rsa_keygen 2048 _).
  set (w1 := World (tape w) (cursor w + keygen_draw)).
  destruct (@oaep_accepts P C (fst kp)
              (map (fun i => tape w1 (cursor w1 + i)%nat) (seq 0 32)) p)
    as [c Hc].
  { unfold kp. rewrite keygen_modulus. unfold oaep_overhead. lia. }
  erewrite bind_ok.
  2: { rewrite rsaEncrypt_run. unfold arrayBufferToBase64 at 1.
       rewrite Base64Facts.from_to_base64, Hc. reflexivity. }
  unfold rsaDecrypt, bind, lift, base64ToArrayBuffer, decrypt.
  cbn [material has_usage usages existsb key_usage_eqb orb negb].
  unfold arrayBufferToBase64 at 1. rewrite Base64Facts.from_to_base64.
  assert (Hd : oaep_decrypt (snd kp) c = Some p)
    by (eapply oaep_inverts; exact Hc).
  rewrite Hd. reflexivity.
Qed.

Lemma rsa_encrypt_fresh_run b64Data w :
  exists w1,
    rsa_encrypt_fresh b64Data w
    = rsaEncrypt b64Data
        (arrayBufferToBase64
           (spki_encode
              (fst (rsa_keygen 2048
                      (map (fun i => tape w (cursor w + i)%nat)
                           (seq 0 keygen_draw)))))) w1.
Proof.
  eexists. unfold rsa_encrypt_fresh.
  erewrite bind_ok by apply generateRsaKeyPair_run.
  cbn [publicKey].
  erewrite bind_ok by (apply exportPubKey_run; reflexivity).
  reflexivity.
Qed.

Lemma rsaEncrypt_too_large pk b64Data w :
  modulus_bytes pk = 256%nat ->
  fst (rsaEncrypt b64Data (arrayBufferToBase64 (spki_encode pk)) w)
  = Err PayloadTooLargeError
  <-> (190 < List.length (Base64.from_base64 b64Data))%nat.
Proof.
  intros Hk. rewrite rsaEncrypt_run. split.
  - intros H.
    destruct (le_lt_dec (List.length (Base64.from_base64 b64Data)) 190)
      as [A | B]; [exfalso | exact B].
    destruct (@oaep_accepts P C pk
                (map (fun i => tape w (cursor w + i)%nat) (seq 0 32))
                (Base64.from_base64 b64Data)) as [c Hc].
    { rewrite Hk. unfold oaep_overhead. lia. }
    rewrite Hc in H. discriminate H.
  - intros Hl. rewrite oaep_rejects; [reflexivity|].
    rewrite Hk. unfold oaep_overhead. lia.
Qed.

(** C6: rsaEncrypt fails with the error of an oversized message exactly
    when the decoded length of the payload exceeds 190 bytes, under the
    exported public key of a generated pair and under every 2048-bit public
    key in exported form.  The length is that of the bytes the base64
    decoder reads. *)
Theorem C6_rsa_payload_too_large (b64Data : jsstring) (w : world) :
  (fst (rsa_encrypt_fresh b64Data w) = Err PayloadTooLargeError
   <-> (190 < List.length (Base64.from_base64 b64Data))%nat)
  /\ forall pk w',
       modulus_bytes pk = 256%nat ->
       (fst (rsaEncrypt b64Data (arrayBufferToBase64 (spki_encode pk)) w')
        = Err PayloadTooLargeError
        <-> (190 < List.length (Base64.from_base64 b64Data))%nat).
Proof.
  split.
  - destruct (rsa_encrypt_fresh_run b64Data w) as [w1 E]. rewrite E.
    apply rsaEncrypt_too_large, keygen_modulus.
  - intros pk w' Hk. now apply rsaEncrypt_too_large.
Qed.

End WithContract.

(** C4: decoding the base64 encoding of a byte sequence returns the
    sequence, the empty one included. *)
Theorem C4_base64_round_trip (b : list byte) :
  base64ToArrayBuffer (arrayBufferToBase64 b) = Ok b.
Proof.
  unfold base64ToArrayBuffer, arrayBufferToBase64.
  now rewrite Base64Facts.from_to_base64.
Qed.

(** C5, as the code has it: base64ToArrayBuffer never fails.  For every
    text it returns the bytes that RFC 4648 assigns to the characters it
    reads: of the low bytes of the code units, those that come before the
    first '=' and are in the alphabet.  Other characters are skipped, what
    follows the '=' is not read and padding is not required: n characters
    read give 3n/4 bytes, rounded down. *)
Theorem C5_decode_never_fails (s : jsstring) :
  exists bs,
    base64ToArrayBuffer s = Ok bs
    /\ bs = Base64.rfc4648_decode
              (map Base64.sextet_value (Base64.significant s))
    /\ List.length bs = (3 * List.length (Base64.significant s) / 4)%nat.
Proof.
  eexists. split; [reflexivity|]. split.
  - apply Base64Spec.from_base64_rfc4648.
  - rewrite Base64Spec.from_base64_rfc4648, Base64Spec.length_rfc4648_decode.
    now rewrite length_map.
Qed.

(** C7, as the code has it: exportPrvKey returns null for null without
    failing.  For a present private key that is extractable it returns the
    standard base64 text of the key's PKCS#8 serialisation; for one that is
    not extractable it fails with InvalidAccessError. *)
Theorem C7_exportPrvKey (key : CryptoKey) (sk : rsa_private) (w : world) :
  material key = RsaPrivate sk ->
  exportPrvKey None w = (Ok None, w)
  /\ exists str,
       str = Base64.to_base64 (pkcs8_encode sk)
       /\ Base64.valid_base64 str = true
       /\ Base64.from_base64 str = pkcs8_encode sk
       /\ exportPrvKey (Some key) w
          = (if extractable key then Ok (Some str) else Err KeyRoleError, w).
Proof.
  intros Hm. split; [reflexivity|].
  eexists. split; [reflexivity|]. split; [|split].
  - apply ModeFacts.to_base64_valid.
  - apply Base64Facts.from_to_base64.
  - unfold exportPrvKey, bind, exportKey. rewrite Hm.
    destruct (extractable key); reflexivity.
Qed.

(** C1, as the code has it: the IV is drawn once, when the module is
    loaded.  For every AES key with the encrypt usage and every text, every
    call symEncrypt(k, s) in the process returns the same ciphertext,
    whatever the state of the entropy source, two calls in a row included;
    and the ciphertext holds the CBC blocks only (16 * (n / 16 + 1) bytes
    for n bytes of UTF-8): the IV is not in it. *)
Theorem C1_same_iv_every_call (w0 w1 : world) (m : module_state)
    (key : CryptoKey) (bytes : list byte) (s : jsstring) :
  load w0 = (Ok m, w1) ->
  material key = AesSecret bytes ->
  has_usage Encrypt key = true ->
  exists c,
    (forall w, symEncrypt m key s w = (Ok c, w))
    /\ (forall w,
          (c1 <- symEncrypt m key s ;; c2 <- symEncrypt m key s ;;
           ret (c1, c2)) w = (Ok (c, c), w))
    /\ List.length (Base64.from_base64 c)
       = (16 * S (List.length (Utf8.TextEncoder_encode s) / 16))%nat.
Proof.
  intros L Hm Hu. pose proof (load_iv_length L) as N.
  eexists. split; [|split].
  - intro w. apply symEncrypt_run; [exact Hm | exact Hu | exact N].
  - intro w.
    erewrite bind_ok by (apply symEncrypt_run; [exact Hm | exact Hu | exact N]).
    erewrite bind_ok by (apply symEncrypt_run; [exact Hm | exact Hu | exact N]).
    reflexivity.
  - unfold arrayBufferToBase64. rewrite Base64Facts.from_to_base64.
    apply CbcFacts.length_aes_cbc_encrypt.
Qed.

(** C2, as the code has it: well-formed text that does not begin with
    U+FEFF, encrypted with a generated key and decrypted in the same
    process with the exported key, comes back unchanged. *)
Theorem C2_sym_round_trip (s : jsstring) (w : world) :
  Utf8.well_formed s = true -> Utf8.starts_with_bom s = false ->
  fst (sym_round_trip s w) = Ok s.
Proof.
  intros Hw Hb. unfold sym_round_trip.
  erewrite bind_ok by apply load_run.
  erewrite bind_ok by apply createRandomSymmetricKey_run.
  erewrite bind_ok by (apply symEncrypt_run; reflexivity).
  erewrite bind_ok by (apply exportSymKey_run; reflexivity).
  rewrite symDecrypt_run.
  - unfold arrayBufferToBase64. rewrite !Base64Facts.from_to_base64.
    rewrite CbcFacts.aes_cbc_decrypt_encrypt. cbn [fst].
    now rewrite Utf8Facts.TextDecoder_decode_encode.
  - unfold arrayBufferToBase64. rewrite Base64Facts.from_to_base64.
    reflexivity.
  - reflexivity.
Qed.

Lemma symDecrypt_no_encoding_error m strKey ct w :
  fst (symDecrypt m strKey ct w) <> Err EncodingError.
Proof.
  destruct (aes_key_length (List.length (Base64.from_base64 strKey))) eqn:Hk.
  2: { rewrite symDecrypt_bad_key by exact Hk. discriminate. }
  unfold symDecrypt.
  erewrite bind_ok by (apply importSymKey_run; exact Hk).
  unfold bind, lift, base64ToArrayBuffer, decrypt.
  cbn [material has_usage usages existsb key_usage_eqb orb negb].
  destruct (negb (List.length (iv m) =? 16)%nat); [discriminate|].
  destruct (Cbc.aes_cbc_decrypt _ _ _); discriminate.
Qed.

(** C8, as the code has it.  symDecrypt never fails with an encoding
    error.  With a key string of a valid length, let c be the bytes decoded
    from the ciphertext text and raw the CBC decryption of c: symDecrypt
    fails with the decryption error exactly when c is empty, or not a whole
    number of 16-byte blocks, or raw is not PKCS#7 padded.  Otherwise raw
    is some data followed by n bytes of value n (1 <= n <= 16) and
    symDecrypt returns the decoding of the data: when the data is not UTF-8
    the text holds U+FFFD, and when it is the encoding of scalar values the
    text is these values, a leading U+FEFF dropped. *)
Theorem C8_symDecrypt_outcomes (m : module_state) (strKey ct : jsstring)
    (w : world) :
  let c := Base64.from_base64 ct in
  let raw := flat_map Aes.bytes_of_block
               (Cbc.decrypt_blocks (Base64.from_base64 strKey)
                  (Aes.block_of_bytes (iv m)) (Aes.blocks_of_bytes c)) in
  let out := fst (symDecrypt m strKey ct w) in
  out <> Err EncodingError
  /\ (aes_key_length (List.length (Base64.from_base64 strKey)) = true ->
      List.length (iv m) = 16%nat ->
      (out = Err CryptoOperationError
       <-> c = [] \/ (List.length c mod 16 <> 0)%nat
           \/ ~ (exists pt, Cbc.pkcs7_padded raw pt))
      /\ (forall pt,
            c <> [] -> (List.length c mod 16 = 0)%nat ->
            Cbc.pkcs7_padded raw pt ->
            out = Ok (Utf8.TextDecoder_decode pt)
            /\ (~ Utf8.is_utf8 pt ->
                In Utf8.replacement (Utf8.TextDecoder_decode pt))
            /\ (forall cps,
                  Forall (fun cp => Utf8.is_scalar cp = true) cps ->
                  pt = flat_map Utf8.encode_code_point cps ->
                  out = Ok (flat_map Utf8.code_units (Utf8.strip_bom cps))))).
Proof.
  intros c raw out. split; [apply symDecrypt_no_encoding_error|].
  intros Hk Hl.
  assert (E : out = match Cbc.aes_cbc_decrypt (Base64.from_base64 strKey)
                            (Aes.block_of_bytes (iv m)) c with
                    | Some pt => Ok (Utf8.TextDecoder_decode pt)
                    | None => Err CryptoOperationError
                    end).
  { unfold out. now rewrite symDecrypt_run. }
  unfold Cbc.aes_cbc_decrypt in E. fold raw in E.
  destruct (List.length c =? 0)%nat eqn:L0.
  { apply Nat.eqb_eq in L0. apply length_zero_iff_nil in L0.
    cbn [orb] in E. split.
    - split; [intros _; now left | intros _; exact E].
    - intros pt Hc. contradiction. }
  destruct (List.length c mod 16 =? 0)%nat eqn:L16.
  2: { apply Nat.eqb_neq in L16. cbn [orb negb] in E. split.
       - split; [intros _; right; now left | intros _; exact E].
       - intros pt _ Hc. contradiction. }
  apply Nat.eqb_neq in L0. apply Nat.eqb_eq in L16.
  assert (Hne : c <> []) by (intros X; apply L0; now rewrite X).
  cbn [orb negb] in E.
  destruct (Cbc.pkcs7_unpad raw) as [d|] eqn:U.
  - apply CbcFacts.pkcs7_unpad_spec in U. split.
    + split; [rewrite E; discriminate|].
      intros [X | [X | X]]; [contradiction | contradiction |].
      exfalso. apply X. now exists d.
    + intros pt _ _ Hp.
      apply CbcFacts.pkcs7_unpad_spec in Hp, U.
      rewrite U in Hp. injection Hp as ->.
      split; [exact E | split].
      * intros NU.
        apply Utf8Reads.replaced_in_text, Utf8Reads.not_utf8_replaced, NU.
      * intros cps S ->. rewrite E.
        now rewrite Utf8Reads.TextDecoder_decode_scalars.
  - split.
    + split; [|intros _; exact E].
      intros _. right. right. intros [pt Hp].
      apply CbcFacts.pkcs7_unpad_spec in Hp. rewrite Hp in U. discriminate.
    + intros pt _ _ Hp.
      apply CbcFacts.pkcs7_unpad_spec in Hp. rewrite Hp in U. discriminate.
Qed.

Lemma bytes_of_block_of_bytes l :
  List.length l = 16%nat -> Aes.bytes_of_block (Aes.block_of_bytes l) = l.
Proof.
  intros H.
  do 16 (destruct l as [|? l]; [discriminate H|]).
  destruct l; [reflexivity | discriminate H].
Qed.

Lemma symEncrypt_draws_nothing m key s : draws_nothing (symEncrypt m key s).
Proof.
  unfold symEncrypt. apply draws_nothing_bind.
  - apply draws_nothing_encrypt_aes.
  - intro. apply draws_nothing_ret.
Qed.

Lemma importSymKey_draws_nothing s : draws_nothing (importSymKey s).
Proof.
  unfold importSymKey. apply draws_nothing_bind;
    [apply draws_nothing_lift | intro; apply draws_nothing_importKey_raw_aes].
Qed.

Lemma symDecrypt_draws_nothing m s t : draws_nothing (symDecrypt m s t).
Proof.
  unfold symDecrypt.
  apply draws_nothing_bind; [apply importSymKey_draws_nothing | intro].
  apply draws_nothing_bind; [apply draws_nothing_lift | intro].
  apply draws_nothing_bind; [apply draws_nothing_decrypt | intro].
  apply draws_nothing_ret.
Qed.

Section UnderContract.
Context {C : RsaContract P}.

Lemma rsaEncrypt_failure d k w w' e :
  fst (rsaEncrypt d k w) = Err e -> fst (rsaEncrypt d k w') = Err e.
Proof.
  rewrite !rsaEncrypt_any.
  destruct (spki_decode (Base64.from_base64 k)) as [pk|]; [|trivial].
  destruct (le_lt_dec (List.length (Base64.from_base64 d) + oaep_overhead)
              (modulus_bytes pk)) as [A | R].
  - destruct (@oaep_accepts P C pk
                (map (fun i => tape w (cursor w + i)%nat) (seq 0 32))
                (Base64.from_base64 d) A) as [c Hc].
    rewrite Hc. cbn [fst]. discriminate.
  - rewrite !(@oaep_rejects P C pk _ _ R). trivial.
Qed.

(** C9, as the code has it: every operation is determined by its
    arguments, the module's IV and the random bytes it draws.  The exports,
    the imports, rsaDecrypt, symEncrypt and symDecrypt draw none: they
    return the same result or failure whatever the state of the entropy
    source, and leave it untouched.  rsaEncrypt draws a seed of 32 bytes:
    a call that fails fails the same way whatever the seed, and the result
    is the same under the same seed.  createRandomSymmetricKey is
    determined by the 32 bytes it draws and generateRsaKeyPair by the bytes
    its key generation draws. *)
Theorem C9_deterministic_calls (m : module_state) (key : CryptoKey)
    (okey : option CryptoKey) (s t : jsstring) :
  draws_nothing (exportPubKey key)
  /\ draws_nothing (exportPrvKey okey)
  /\ draws_nothing (importPubKey s)
  /\ draws_nothing (importPrvKey s)
  /\ draws_nothing (rsaDecrypt s key)
  /\ draws_nothing (exportSymKey key)
  /\ draws_nothing (importSymKey s)
  /\ draws_nothing (symEncrypt m key s)
  /\ draws_nothing (symDecrypt m s t)
  /\ (forall w w' e,
        fst (rsaEncrypt s t w) = Err e -> fst (rsaEncrypt s t w') = Err e)
  /\ (forall w w',
        (forall i, (i < 32)%nat ->
           tape w (cursor w + i)%nat = tape w' (cursor w' + i)%nat) ->
        fst (rsaEncrypt s t w) = fst (rsaEncrypt s t w'))
  /\ (forall w w',
        (forall i, (i < 32)%nat ->
           tape w (cursor w + i)%nat = tape w' (cursor w' + i)%nat) ->
        fst (createRandomSymmetricKey w) = fst (createRandomSymmetricKey w'))
  /\ (forall w w',
        (forall i, (i < keygen_draw)%nat ->
           tape w (cursor w + i)%nat = tape w' (cursor w' + i)%nat) ->
        fst (generateRsaKeyPair w) = fst (generateRsaKeyPair w')).
Proof.
  repeat apply conj.
  - apply draws_nothing_bind;
      [apply draws_nothing_exportKey | intro; apply draws_nothing_ret].
  - destruct okey; [|apply draws_nothing_ret].
    apply draws_nothing_bind;
      [apply draws_nothing_exportKey | intro; apply draws_nothing_ret].
  - apply draws_nothing_bind; [apply draws_nothing_lift | intro].
    apply draws_nothing_bind;
      [apply draws_nothing_lift_option | intro; apply draws_nothing_ret].
  - apply draws_nothing_bind; [apply draws_nothing_lift | intro].
    apply draws_nothing_bind;
      [apply draws_nothing_lift_option | intro; apply draws_nothing_ret].
  - apply draws_nothing_bind; [apply draws_nothing_lift | intro].
    apply draws_nothing_bind;
      [apply draws_nothing_decrypt | intro; apply draws_nothing_ret].
  - apply draws_nothing_bind;
      [apply draws_nothing_exportKey | intro; apply draws_nothing_ret].
  - apply importSymKey_draws_nothing.
  - apply symEncrypt_draws_nothing.
  - apply symDecrypt_draws_nothing.
  - intros w w' e. apply rsaEncrypt_failure.
  - intros w w'. apply rsaEncrypt_seed.
  - intros w w' H. apply seed_ext in H.
    rewrite !createRandomSymmetricKey_run. cbn [fst]. now rewrite H.
  - intros w w'. apply generateRsaKeyPair_entropy.
Qed.

End UnderContract.

(** C10, as the code has it: the IV is the sixteen bytes drawn when the
    module is loaded; symEncrypt and symDecrypt take it from the module
    state and draw nothing; and AES-CBC decryption of what symEncrypt
    produced returns the plaintext bytes exactly when the decrypting
    module has the same IV. *)
Theorem C10_module_iv (w1 w2 w1' w2' w : world) (m1 m2 : module_state)
    (key : CryptoKey) (bytes : list byte) (s t : jsstring) :
  load w1 = (Ok m1, w1') -> load w2 = (Ok m2, w2') ->
  material key = AesSecret bytes ->
  has_usage Encrypt key = true -> has_usage Decrypt key = true ->
  iv m1 = map (fun i => tape w1 (cursor w1 + i)%nat) (seq 0 16)
  /\ draws_nothing (symEncrypt m1 key s)
  /\ draws_nothing (symDecrypt m1 s t)
  /\ exists ct,
       symEncrypt m1 key s w = (Ok ct, w)
       /\ (fst (decrypt (AesCbc (iv m2)) key (Base64.from_base64 ct) w)
           = Ok (Utf8.TextEncoder_encode s)
           <-> iv m2 = iv m1).
Proof.
  intros L1 L2 Hm He Hd.
  pose proof (load_iv_length L1) as N1.
  pose proof (load_iv_length L2) as N2.
  split; [|split; [apply symEncrypt_draws_nothing
                  |split; [apply symDecrypt_draws_nothing|]]].
  - rewrite load_run in L1. now injection L1 as <- _.
  - eexists. split; [apply symEncrypt_run; [exact Hm | exact He | exact N1]|].
    unfold arrayBufferToBase64. rewrite Base64Facts.from_to_base64.
    unfold decrypt. rewrite Hm, Hd, N2. cbn [negb Nat.eqb].
    split.
    + intros H.
      destruct (Cbc.aes_cbc_decrypt bytes (Aes.block_of_bytes (iv m2)) _)
        as [pt|] eqn:E; [|discriminate H].
      cbn in H. injection H as H. subst pt.
      apply CbcFacts.aes_cbc_decrypt_iv in E.
      rewrite <- (@bytes_of_block_of_bytes _ N1),
        <- (@bytes_of_block_of_bytes _ N2). now rewrite E.
    + intros E. rewrite E, CbcFacts.aes_cbc_decrypt_encrypt. reflexivity.
Qed.

End WithRsa.

(** *** The stand-in provider meets the contract *)

Lemma sim_contract : RsaContract SimRsa.provider.
Proof.
  split.
  - reflexivity.
  - reflexivity.
  - reflexivity.
  - intros pk seed m H. cbn in *. unfold SimRsa.sim_encrypt.
    apply Nat.leb_le in H. rewrite H. eauto.
  - intros pk seed m H. cbn in *. unfold SimRsa.sim_encrypt.
    apply Nat.leb_gt in H. now rewrite H.
  - intros bits entropy seed m c. cbn. unfold SimRsa.sim_encrypt.
    destruct (_ <=? _)%nat; [|discriminate]. now intros [= <-].
Qed.

(** *** Concrete runs *)

Import SimRsa.

(** Against C1 as stated: the same key and text encrypted twice give the
    same ciphertext. *)
Lemma C1_counterexample :
  fst (@encrypt_twice SimRsa.provider (js "a") SimRsa.counting)
  = Ok (js "MehzEf6CvbvkSwSCSXw81w==", js "MehzEf6CvbvkSwSCSXw81w==").
Proof. vm_compute. reflexivity. Qed.

Lemma C1_witness :
  load zeros = (Ok {| iv := repeat x00 16 |}, World (tape zeros) 16)
  /\ exists c,
       (forall w,
          symEncrypt {| iv := repeat x00 16 |}
            {| material := @AesSecret provider (repeat x00 16);
               extractable := true; usages := [Encrypt; Decrypt] |}
            (js "a") w = (Ok c, w))
       /\ List.length (Base64.from_base64 c) = 16%nat.
Proof.
  split; [reflexivity|].
  destruct (@C1_same_iv_every_call provider zeros (World (tape zeros) 16)
              {| iv := repeat x00 16 |}
              {| material := @AesSecret provider (repeat x00 16);
                 extractable := true; usages := [Encrypt; Decrypt] |}
              (repeat x00 16) (js "a") eq_refl eq_refl eq_refl)
    as [c [H1 [_ H3]]].
  exists c. split; [exact H1 | exact H3].
Defined.

(** Against C2 as stated: a text that begins with U+FEFF comes back
    without it. *)
Lemma C2_counterexample :
  Utf8.well_formed (0xFEFF :: js "a") = true
  /\ fst (@sym_round_trip SimRsa.provider (0xFEFF :: js "a") SimRsa.counting)
     = Ok (js "a").
Proof. split; vm_compute; reflexivity. Qed.

Lemma C2_witness :
  Utf8.well_formed (js "secret message") = true
  /\ Utf8.starts_with_bom (js "secret message") = false
  /\ fst (@sym_round_trip SimRsa.provider (js "secret message")
            SimRsa.counting)
     = Ok (js "secret message").
Proof.
  split; [reflexivity | split; [reflexivity|]].
  apply (@C2_sym_round_trip SimRsa.provider); reflexivity.
Defined.

Lemma C3_witness :
  (List.length (hex "48656c6c6f") <= 190)%nat
  /\ fst (@rsa_round_trip SimRsa.provider (hex "48656c6c6f") SimRsa.counting)
     = Ok (js "SGVsbG8=").
Proof.
  split; [vm_compute; lia|].
  apply (@C3_rsa_round_trip SimRsa.provider sim_contract).
  vm_compute; lia.
Defined.

(** Against C5 as stated: a text with a character outside the alphabet
    and no padding is decoded, not rejected, and so is a text whose padding
    is missing. *)
Lemma C5_counterexample :
  Base64.valid_base64 (js "SGV$sbG8") = false
  /\ base64ToArrayBuffer (js "SGV$sbG8") = Ok (hex "48656c6c6f")
  /\ Base64.valid_base64 (js "QQ") = false
  /\ base64ToArrayBuffer (js "QQ") = Ok (hex "41").
Proof. repeat split; vm_compute; reflexivity. Qed.

Lemma C6_witness :
  (190 < List.length (Base64.from_base64 (repeat 65%N 256)))%nat
  /\ fst (@rsa_encrypt_fresh provider (repeat 65%N 256) counting)
     = Err PayloadTooLargeError
  /\ (List.length (Base64.from_base64 (repeat 65%N 254)) = 190)%nat
  /\ fst (@rsa_encrypt_fresh provider (repeat 65%N 254) counting)
     <> Err PayloadTooLargeError.
Proof.
  pose proof (proj1 (@C6_rsa_payload_too_large provider sim_contract
                       (repeat 65%N 256) counting)) as H1.
  pose proof (proj1 (@C6_rsa_payload_too_large provider sim_contract
                       (repeat 65%N 254) counting)) as H2.
  assert (L1 : (190 < List.length (Base64.from_base64 (repeat 65%N 256)))%nat)
    by (vm_compute; lia).
  assert (L2 : (List.length (Base64.from_base64 (repeat 65%N 254)) = 190)%nat)
    by (vm_compute; reflexivity).
  repeat apply conj; [exact L1 | exact (proj2 H1 L1) | exact L2 |].
  intros F. apply H2 in F. rewrite L2 in F. lia.
Defined.

(** Against C7 as stated: a private key imported as not extractable is
    present, and exportPrvKey fails on it. *)
Lemma C7_counterexample :
  fst (@export_not_extractable provider counting) = Err KeyRoleError.
Proof. reflexivity. Qed.

Lemma C7_witness :
  exists kp w1,
    @generateRsaKeyPair provider counting = (Ok kp, w1)
    /\ exportPrvKey None w1 = (Ok None, w1)
    /\ exportPrvKey (Some (privateKey kp)) w1
       = (Ok (Some (js "AAECAwQFBgc=")), w1).
Proof.
  do 2 eexists. split; [reflexivity|].
  destruct (@C7_exportPrvKey provider
              {| material := @RsaPrivate provider (hex "0001020304050607");
                 extractable := true; usages := [Decrypt] |}
              (hex "0001020304050607") (World (tape counting) 8) eq_refl)
    as [H0 [str [E [_ [_ H1]]]]].
  split; [exact H0|]. rewrite E in H1. exact H1.
Defined.

(** Against C8 as stated: a ciphertext whose plaintext is the single byte
    FF, which is not UTF-8, is decrypted to the text U+FFFD. *)
Lemma C8_counterexample :
  let m := {| iv := repeat x00 16 |} in
  let strKey := js "AAAAAAAAAAAAAAAAAAAAAAAAAAAAAAAAAAAAAAAAAAA=" in
  let ct := js "bTAVGFeQ1lWSAHEe2zmrNQ==" in
  fst (load SimRsa.zeros) = Ok m
  /\ Cbc.aes_cbc_decrypt (Base64.from_base64 strKey)
       (Aes.block_of_bytes (iv m)) (Base64.from_base64 ct) = Some [xff]
  /\ ~ Utf8.is_utf8 [xff]
  /\ fst (@symDecrypt SimRsa.provider m strKey ct SimRsa.zeros)
     = Ok [0xFFFD].
Proof.
  repeat apply conj; try (vm_compute; reflexivity).
  apply Utf8Reads.valid_utf8_false. reflexivity.
Qed.

Lemma C8_witness :
  let m := {| iv := repeat x00 16 |} in
  let strKey := js "AAAAAAAAAAAAAAAAAAAAAAAAAAAAAAAAAAAAAAAAAAA=" in
  let ct := js "bTAVGFeQ1lWSAHEe2zmrNQ==" in
  aes_key_length (List.length (Base64.from_base64 strKey)) = true
  /\ List.length (iv m) = 16%nat
  /\ Cbc.pkcs7_padded
       (flat_map Aes.bytes_of_block
          (Cbc.decrypt_blocks (Base64.from_base64 strKey)
             (Aes.block_of_bytes (iv m))
             (Aes.blocks_of_bytes (Base64.from_base64 ct))))
       [xff]
  /\ ~ Utf8.is_utf8 [xff]
  /\ fst (@symDecrypt provider m strKey ct zeros)
     = Ok (Utf8.TextDecoder_decode [xff])
  /\ In Utf8.replacement (Utf8.TextDecoder_decode [xff])
  /\ fst (@symDecrypt provider m strKey (js "bTAVGFeQ1lWSAHEe2zmr") zeros)
     = Err CryptoOperationError.
Proof.
  intros m strKey ct.
  assert (Hp : Cbc.pkcs7_padded
                 (flat_map Aes.bytes_of_block
                    (Cbc.decrypt_blocks (Base64.from_base64 strKey)
                       (Aes.block_of_bytes (iv m))
                       (Aes.blocks_of_bytes (Base64.from_base64 ct))))
                 [xff]).
  { exists 15%nat. split; [lia | vm_compute; reflexivity]. }
  assert (Hu : ~ Utf8.is_utf8 [xff])
    by (apply Utf8Reads.valid_utf8_false; reflexivity).
  destruct (@C8_symDecrypt_outcomes provider m strKey ct zeros) as [_ H].
  destruct (H eq_refl eq_refl) as [_ H0].
  destruct (H0 [xff]) as [H1 [H2 _]];
    [vm_compute; discriminate | vm_compute; reflexivity | exact Hp |].
  destruct (@C8_symDecrypt_outcomes provider m strKey
              (js "bTAVGFeQ1lWSAHEe2zmr") zeros) as [_ H'].
  destruct (H' eq_refl eq_refl) as [[_ H3] _].
  repeat apply conj;
    [reflexivity | reflexivity | exact Hp | exact Hu | exact H1
    | exact (H2 Hu) |].
  apply H3. right. left. vm_compute. discriminate.
Defined.

(** Against C9 as stated: two calls of rsaEncrypt with the same payload
    and the same public key return different ciphertexts. *)
Lemma C9_counterexample :
  exists c1 c2,
    fst (@rsa_encrypt_twice provider (js "SGVsbG8=") counting) = Ok (c1, c2)
    /\ c1 <> c2.
Proof.
  eexists. eexists. split; [vm_compute; reflexivity|].
  intros H. discriminate H.
Qed.

Lemma C9_witness :
  exists kp w1 pub,
    @generateRsaKeyPair provider counting = (Ok kp, w1)
    /\ exportPubKey (publicKey kp) w1 = (Ok pub, w1)
    /\ fst (rsaEncrypt (repeat 65 256) pub w1) = Err PayloadTooLargeError
    /\ fst (rsaEncrypt (repeat 65 256) pub zeros) = Err PayloadTooLargeError
    /\ draws_nothing (exportPubKey (publicKey kp)).
Proof.
  do 3 eexists.
  split; [reflexivity | split; [reflexivity|]].
  pose proof (@C9_deterministic_calls provider sim_contract
                {| iv := repeat x00 16 |}
                {| material := @RsaPublic provider (hex "0001020304050607");
                   extractable := true; usages := [Encrypt] |}
                None (repeat 65 256) (js "AAECAwQFBgc="))
    as [H1 [_ [_ [_ [_ [_ [_ [_ [_ [H10 _]]]]]]]]]].
  assert (F : fst (@rsaEncrypt provider (repeat 65 256) (js "AAECAwQFBgc=")
                     (World (tape counting) 8))
              = Err PayloadTooLargeError) by (vm_compute; reflexivity).
  split; [exact F | split; [|exact H1]].
  exact (H10 (World (tape counting) 8) zeros PayloadTooLargeError F).
Defined.

(** Against C10 as stated: a ciphertext made under one IV is decrypted to
    the same text in a process with another IV. *)
Lemma C10_counterexample :
  let w2 := tape_of (hex "8eb4b06e030303030303030303030303") in
  (exists m1 m2,
     fst (@load SimRsa.zeros) = Ok m1 /\ fst (load w2) = Ok m2
     /\ iv m1 <> iv m2)
  /\ @across_processes SimRsa.provider SimRsa.zeros w2 (repeat x00 32) (js "a")
     = Ok (js "a").
Proof.
  split.
  - eexists. eexists. split; [vm_compute; reflexivity|].
    split; [vm_compute; reflexivity|].
    cbn [iv]. intros H. discriminate H.
  - vm_compute. reflexivity.
Qed.

Lemma C10_witness :
  iv {| iv := repeat x00 16 |}
  = map (fun i => tape zeros (cursor zeros + i)%nat) (seq 0 16)
  /\ exists ct,
       symEncrypt {| iv := repeat x00 16 |}
         {| material := @AesSecret provider (repeat x00 32); extractable := true;
            usages := [Encrypt; Decrypt] |} (js "a") zeros
       = (Ok ct, zeros)
       /\ (fst (decrypt (AesCbc (iv {| iv := hex "000102030405060708090a0b0c0d0e0f" |}))
                  {| material := @AesSecret provider (repeat x00 32);
                     extractable := true; usages := [Encrypt; Decrypt] |}
                  (Base64.from_base64 ct) zeros)
           = Ok (Utf8.TextEncoder_encode (js "a"))
           <-> iv {| iv := hex "000102030405060708090a0b0c0d0e0f" |}
               = iv {| iv := repeat x00 16 |}).
Proof.
  pose proof (@C10_module_iv provider zeros counting
                (World (tape zeros) 16) (World (tape counting) 16) zeros
                {| iv := repeat x00 16 |}
                {| iv := hex "000102030405060708090a0b0c0d0e0f" |}
                {| material := @AesSecret provider (repeat x00 32);
                   extractable := true; usages := [Encrypt; Decrypt] |}
                (repeat x00 32) (js "a") (js "a")
                eq_refl eq_refl eq_refl eq_refl eq_refl) as [H1 [_ [_ H4]]].
  split; [exact H1 | exact H4].
Defined.

End CryptoFacts.

(* ------------------------------------------------------------------ *)
(** ** Further properties of the module *)

Module CryptoMore.
Import Crypto Subtle Scenario Composition CryptoFacts.

Section WithRsa.
Context {P : RsaProvider}.

Lemma generated_key_length (w : world) :
  List.length (map (fun i => tape w (cursor w + i)%nat) (seq 0 32)) = 32%nat.
Proof. now rewrite length_map, length_seq. Qed.

Lemma importSymKey_export bytes w :
  aes_key_length (List.length bytes) = true ->
  importSymKey (arrayBufferToBase64 bytes) w
  = (Ok {| material := AesSecret bytes; extractable := true;
           usages := [Encrypt; Decrypt] |}, w).
Proof.
  intros H. rewrite importSymKey_run.
  - unfold arrayBufferToBase64. now rewrite Base64Facts.from_to_base64.
  - unfold arrayBufferToBase64. now rewrite Base64Facts.from_to_base64.
Qed.

(** X1: a key from createRandomSymmetricKey has 32 bytes, and importing its
    exported string gives the same key: same bytes, extractable, usable to
    encrypt and to decrypt. *)
Theorem X1_sym_key_reimport (w : world) :
  exists k bytes,
    fst (sym_key_reimport w) = Ok (k, k)
    /\ material k = AesSecret bytes
    /\ List.length bytes = 32%nat.
Proof.
  unfold sym_key_reimport.
  erewrite bind_ok by apply createRandomSymmetricKey_run.
  erewrite bind_ok by (apply exportSymKey_run; reflexivity).
  erewrite bind_ok.
  2: { apply importSymKey_export. now rewrite generated_key_length. }
  do 2 eexists. split; [reflexivity|]. split; [reflexivity|].
  apply generated_key_length.
Qed.

(** X2: a key string that does not decode to 16, 24 or 32 bytes is refused
    by importSymKey with the key format error, and symDecrypt stops there:
    it fails the same way whatever the ciphertext. *)
Theorem X2_bad_key_length (m : module_state) (strKey ct : jsstring)
    (w : world) :
  aes_key_length (List.length (Base64.from_base64 strKey)) = false ->
  importSymKey strKey w = (Err KeyFormatError, w)
  /\ symDecrypt m strKey ct w = (Err KeyFormatError, w).
Proof.
  intros H. split; [|now apply symDecrypt_bad_key].
  unfold importSymKey, bind, lift, base64ToArrayBuffer, importKey_raw_aes.
  now rewrite H.
Qed.

(** X4: the keys keep to their roles.  Of a generated pair, the public key
    is not exported as a private or a symmetric key and the private key not
    as a public key; a symmetric key is not exported as an RSA key: each of
    these five exports fails with NotSupportedError, the keys being
    extractable.  The public key cannot decrypt, symEncrypt does not take
    the private key and rsaDecrypt does not take a symmetric key: each of
    these three uses fails with InvalidAccessError, the key role error. *)
Theorem X4_key_roles (m : module_state) (data s : jsstring) (w : world) :
  exists kp w1 k w2,
    generateRsaKeyPair w = (Ok kp, w1)
    /\ createRandomSymmetricKey w = (Ok k, w2)
    /\ fst (exportPrvKey (Some (publicKey kp)) w1) = Err NotSupportedError
    /\ fst (exportSymKey (publicKey kp) w1) = Err NotSupportedError
    /\ fst (exportPubKey (privateKey kp) w1) = Err NotSupportedError
    /\ fst (exportPubKey k w2) = Err NotSupportedError
    /\ fst (exportPrvKey (Some k) w2) = Err NotSupportedError
    /\ fst (rsaDecrypt data (publicKey kp) w1) = Err KeyRoleError
    /\ fst (symEncrypt m (privateKey kp) s w1) = Err KeyRoleError
    /\ fst (rsaDecrypt data k w2) = Err KeyRoleError.
Proof.
  do 4 eexists.
  split; [apply generateRsaKeyPair_run|].
  split; [apply createRandomSymmetricKey_run|].
  repeat split.
Qed.

(** X6: what comes back from an encryption and decryption of any text in
    one process: the text with each lone surrogate replaced by U+FFFD and
    without a leading U+FEFF. *)
Theorem X6_sym_round_trip_any_text (s : jsstring) (w : world) :
  Utf8.code_units_ok s = true ->
  fst (sym_round_trip s w)
  = Ok (flat_map Utf8.code_units (Utf8.strip_bom (Utf8.code_points s))).
Proof.
  intros Hs. unfold sym_round_trip.
  erewrite bind_ok by apply load_run.
  erewrite bind_ok by apply createRandomSymmetricKey_run.
  erewrite bind_ok by (apply symEncrypt_run; reflexivity).
  erewrite bind_ok by (apply exportSymKey_run; reflexivity).
  rewrite symDecrypt_run.
  - unfold arrayBufferToBase64. rewrite !Base64Facts.from_to_base64.
    rewrite CbcFacts.aes_cbc_decrypt_encrypt. cbn [fst].
    unfold Utf8.TextDecoder_decode.
    now rewrite Utf8Facts.decode_loop_encode.
  - unfold arrayBufferToBase64. rewrite Base64Facts.from_to_base64.
    reflexivity.
  - reflexivity.
Qed.

(** X11: with a usable key, symDecrypt refuses a ciphertext that is empty
    or not a whole number of 16-byte blocks. *)
Theorem X11_ciphertext_length (m : module_state) (strKey ct : jsstring)
    (w : world) :
  aes_key_length (List.length (Base64.from_base64 strKey)) = true ->
  List.length (iv m) = 16%nat ->
  Base64.from_base64 ct = []
  \/ (List.length (Base64.from_base64 ct) mod 16 <> 0)%nat ->
  fst (symDecrypt m strKey ct w) = Err CryptoOperationError.
Proof.
  intros Hk Hl Hc. rewrite symDecrypt_run by assumption. cbn [fst].
  unfold Cbc.aes_cbc_decrypt.
  destruct Hc as [E | N].
  - rewrite E. reflexivity.
  - apply Nat.eqb_neq in N. rewrite N. cbn [negb]. rewrite orb_true_r.
    reflexivity.
Qed.

(** X5: arrayBufferToBase64 writes standard base64: characters of the
    standard alphabet followed by at most two '=', four characters for
    every three bytes or part of three. *)
Theorem X5_encoder_output (b : list byte) :
  Base64.valid_base64 (arrayBufferToBase64 b) = true
  /\ List.length (arrayBufferToBase64 b) = (4 * ((List.length b + 2) / 3))%nat.
Proof.
  unfold arrayBufferToBase64.
  destruct (ModeFacts.to_base64_shape b) as [body [k [E [Hk [Hs Hl]]]]].
  assert (L : List.length (Base64.to_base64 b)
              = (4 * ((List.length b + 2) / 3))%nat).
  { rewrite E, length_app, repeat_length. exact Hl. }
  split; [|exact L].
  unfold Base64.valid_base64. rewrite L.
  rewrite E, ModeFacts.before_pad_body by exact Hs.
  rewrite skipn_app, skipn_all, Nat.sub_diag. cbn [app skipn].
  rewrite Hs, repeat_length.
  replace (4 * ((List.length b + 2) / 3))%nat
    with ((List.length b + 2) / 3 * 4)%nat by lia.
  rewrite Nat.Div0.mod_mul. cbn [Nat.eqb andb].
  apply andb_true_iff. split; [|now apply Nat.leb_le].
  clear. induction k as [|k IH]; [reflexivity|].
  cbn [repeat forallb]. now rewrite IH, N.eqb_refl.
Qed.

Lemma encode_injective s1 s2 :
  Utf8.well_formed s1 = true -> Utf8.well_formed s2 = true ->
  Utf8.TextEncoder_encode s1 = Utf8.TextEncoder_encode s2 -> s1 = s2.
Proof.
  intros W1 W2 E.
  apply (f_equal (fun bs => Utf8.decode_loop bs Utf8.decoder_init)) in E.
  rewrite !Utf8Facts.decode_loop_encode in E
    by (apply Utf8Facts.well_formed_units_ok; assumption).
  rewrite <- (@Utf8Facts.code_units_code_points s1 W1),
    <- (@Utf8Facts.code_units_code_points s2 W2).
  now rewrite E.
Qed.

(** X7: under one key in one process, two well-formed texts have the same
    ciphertext exactly when they are the same text: the fixed IV makes
    symEncrypt a one-to-one function of the text, so a repeated message
    shows as a repeated ciphertext. *)
Theorem X7_equal_ciphertexts (m : module_state) (key : CryptoKey)
    (bytes : list byte) (s1 s2 : jsstring) (w w' : world) :
  material key = AesSecret bytes ->
  has_usage Encrypt key = true ->
  List.length (iv m) = 16%nat ->
  Utf8.well_formed s1 = true -> Utf8.well_formed s2 = true ->
  (fst (symEncrypt m key s1 w) = fst (symEncrypt m key s2 w') <-> s1 = s2).
Proof.
  intros Hm Hu Hl W1 W2.
  rewrite (@symEncrypt_run P m key bytes s1 w Hm Hu Hl),
    (@symEncrypt_run P m key bytes s2 w' Hm Hu Hl).
  cbn [fst]. split.
  - intros H. injection H as H.
    apply (f_equal Base64.from_base64) in H.
    unfold arrayBufferToBase64 in H.
    rewrite !Base64Facts.from_to_base64 in H.
    apply (f_equal (Cbc.aes_cbc_decrypt bytes (Aes.block_of_bytes (iv m)))) in H.
    rewrite !CbcFacts.aes_cbc_decrypt_encrypt in H.
    injection H as H. now apply encode_injective.
  - now intros ->.
Qed.

(** X8: under one key in one process, two texts whose UTF-8 encodings
    agree on their first 16 j bytes have ciphertexts that agree on their
    first 16 j bytes. *)
Theorem X8_common_prefix (m : module_state) (key : CryptoKey)
    (bytes : list byte) (s1 s2 : jsstring) (j : nat) (w : world) :
  material key = AesSecret bytes ->
  has_usage Encrypt key = true ->
  List.length (iv m) = 16%nat ->
  (16 * j <= List.length (Utf8.TextEncoder_encode s1))%nat ->
  (16 * j <= List.length (Utf8.TextEncoder_encode s2))%nat ->
  firstn (16 * j) (Utf8.TextEncoder_encode s1)
  = firstn (16 * j) (Utf8.TextEncoder_encode s2) ->
  exists c1 c2,
    symEncrypt m key s1 w = (Ok c1, w)
    /\ symEncrypt m key s2 w = (Ok c2, w)
    /\ firstn (16 * j) (Base64.from_base64 c1)
       = firstn (16 * j) (Base64.from_base64 c2).
Proof.
  intros Hm Hu Hl L1 L2 E.
  do 2 eexists.
  split; [apply (@symEncrypt_run P m key bytes s1 w Hm Hu Hl)|].
  split; [apply (@symEncrypt_run P m key bytes s2 w Hm Hu Hl)|].
  unfold arrayBufferToBase64. rewrite !Base64Facts.from_to_base64.
  rewrite !ModeFacts.aes_cbc_encrypt_prefix by assumption.
  now rewrite E.
Qed.

(** X12: a wrong IV goes unnoticed for a text of sixteen bytes or more.
    When a ciphertext made under one IV is decrypted with the right key
    under another IV, symDecrypt does not fail: it returns the decoding of
    the plaintext with its first sixteen bytes changed by the difference
    of the two IVs. *)
Theorem X12_wrong_iv_not_detected (m1 m2 : module_state) (key : CryptoKey)
    (bytes : list byte) (s : jsstring) (w : world) :
  material key = AesSecret bytes ->
  has_usage Encrypt key = true ->
  extractable key = true ->
  aes_key_length (List.length bytes) = true ->
  List.length (iv m1) = 16%nat -> List.length (iv m2) = 16%nat ->
  (16 <= List.length (Utf8.TextEncoder_encode s))%nat ->
  fst ((c <- symEncrypt m1 key s ;;
        ks <- exportSymKey key ;;
        symDecrypt m2 ks c) w)
  = Ok (Utf8.TextDecoder_decode
          (Aes.bytes_of_block
             (Aes.block_xor
                (Aes.block_xor
                   (Aes.block_of_bytes (Utf8.TextEncoder_encode s))
                   (Aes.block_of_bytes (iv m1)))
                (Aes.block_of_bytes (iv m2)))
           ++ skipn 16 (Utf8.TextEncoder_encode s))).
Proof.
  intros Hm Hu He Hk L1 L2 H16.
  erewrite bind_ok by (apply (@symEncrypt_run P m1 key bytes s w Hm Hu L1)).
  erewrite bind_ok by (apply (@exportSymKey_run P key bytes w Hm He)).
  rewrite symDecrypt_run.
  - unfold arrayBufferToBase64. rewrite !Base64Facts.from_to_base64.
    rewrite ModeFacts.aes_cbc_decrypt_other_iv by exact H16. reflexivity.
  - unfold arrayBufferToBase64. now rewrite Base64Facts.from_to_base64.
  - exact L2.
Qed.

Section WithContract.
Context {C : RsaContract P}.

Lemma importPrvKey_run sk w :
  importPrvKey (arrayBufferToBase64 (pkcs8_encode sk)) w
  = (Ok {| material := RsaPrivate sk; extractable := true;
           usages := [Decrypt] |}, w).
Proof.
  unfold importPrvKey, bind, lift, base64ToArrayBuffer, arrayBufferToBase64,
    importKey_pkcs8.
  rewrite Base64Facts.from_to_base64, pkcs8_round_trip. reflexivity.
Qed.

(** X3: the keys of a generated pair survive export and import: importing
    the exported public key gives the public key back (encrypt only), and
    importing the exported private key gives the private key back (decrypt
    only). *)
Theorem X3_rsa_keys_reimport (w : world) :
  exists kp w' pubStr prvStr,
    generateRsaKeyPair w = (Ok kp, w')
    /\ exportPubKey (publicKey kp) w' = (Ok pubStr, w')
    /\ exportPrvKey (Some (privateKey kp)) w' = (Ok (Some prvStr), w')
    /\ importPubKey pubStr w' = (Ok (publicKey kp), w')
    /\ importPrvKey prvStr w' = (Ok (privateKey kp), w')
    /\ usages (publicKey kp) = [Encrypt]
    /\ usages (privateKey kp) = [Decrypt].
Proof.
  do 4 eexists.
  split; [apply generateRsaKeyPair_run|]. cbn [publicKey privateKey].
  split; [apply exportPubKey_run; reflexivity|].
  split; [reflexivity|].
  split; [apply importPubKey_run|].
  split; [apply importPrvKey_run|].
  split; reflexivity.
Qed.

Lemma rsaEncrypt_ok d pk w :
  (List.length (Base64.from_base64 d) + oaep_overhead <= modulus_bytes pk)%nat ->
  exists c,
    rsaEncrypt d (arrayBufferToBase64 (spki_encode pk)) w
    = (Ok (arrayBufferToBase64 c), World (tape w) (cursor w + 32))
    /\ oaep_encrypt pk (map (fun i => tape w (cursor w + i)%nat) (seq 0 32))
         (Base64.from_base64 d) = Some c.
Proof.
  intros H.
  destruct (@oaep_accepts P C pk
              (map (fun i => tape w (cursor w + i)%nat) (seq 0 32))
              (Base64.from_base64 d) H) as [c Hc].
  exists c. split; [|exact Hc].
  rewrite rsaEncrypt_run, Hc. reflexivity.
Qed.

Lemma rsaDecrypt_generated bits entropy seed msg c key w :
  oaep_encrypt (fst (rsa_keygen bits entropy)) seed msg = Some c ->
  material key = RsaPrivate (snd (rsa_keygen bits entropy)) ->
  has_usage Decrypt key = true ->
  rsaDecrypt (arrayBufferToBase64 c) key w = (Ok (arrayBufferToBase64 msg), w).
Proof.
  intros Hc Hm Hu.
  unfold rsaDecrypt, bind, lift, base64ToArrayBuffer, decrypt.
  rewrite Hm, Hu. cbn [negb].
  unfold arrayBufferToBase64 at 1. rewrite Base64Facts.from_to_base64.
  rewrite (@oaep_inverts P C _ _ _ _ _ Hc). reflexivity.
Qed.

(** X10: rsaDecrypt returns the canonical base64 of the bytes that
    rsaEncrypt read from its text, not the text itself: with a payload of
    at most 190 decoded bytes, the round trip of a text d under a generated
    pair is the encoding of the decoding of d (padding restored, skipped
    characters gone). *)
Theorem X10_rsa_round_trip_canonical (d : jsstring) (w : world) :
  (List.length (Base64.from_base64 d) <= 190)%nat ->
  fst (rsa_round_trip_text d w)
  = Ok (arrayBufferToBase64 (Base64.from_base64 d)).
Proof.
  intros Hd. unfold rsa_round_trip_text.
  erewrite bind_ok by apply generateRsaKeyPair_run.
  cbn [publicKey privateKey].
  erewrite bind_ok by (apply exportPubKey_run; reflexivity).
  set (kp := rsa_keygen 2048 _).
  set (w1 := World (tape w) (cursor w + keygen_draw)).
  destruct (@rsaEncrypt_ok d (fst kp) w1) as [c [Hrun Hc]].
  { unfold kp. rewrite keygen_modulus. unfold oaep_overhead. lia. }
  erewrite bind_ok by exact Hrun.
  erewrite rsaDecrypt_generated; [reflexivity | exact Hc | reflexivity
                                 | reflexivity].
Qed.

(** X9: the hybrid scheme works end to end: a well-formed text without a
    leading U+FEFF, encrypted under a fresh symmetric key whose exported
    string travels under the receiver's public key, is recovered by
    decrypting the key string with the private key and the text with that
    key string. *)
Theorem X9_hybrid_round_trip (s : jsstring) (w : world) :
  Utf8.well_formed s = true -> Utf8.starts_with_bom s = false ->
  fst (hybrid_round_trip s w) = Ok s.
Proof.
  intros Hw Hb. unfold hybrid_round_trip.
  erewrite bind_ok by apply load_run.
  erewrite bind_ok by apply generateRsaKeyPair_run.
  cbn [publicKey privateKey].
  erewrite bind_ok by (apply exportPubKey_run; reflexivity).
  erewrite bind_ok by apply createRandomSymmetricKey_run.
  erewrite bind_ok by (apply symEncrypt_run; reflexivity).
  erewrite bind_ok by (apply exportSymKey_run; reflexivity).
  set (kp := rsa_keygen 2048 _).
  match goal with
  | |- fst (bind (rsaEncrypt ?d _) _ ?w1) = _ =>
      destruct (@rsaEncrypt_ok d (fst kp) w1) as [c [Hrun Hc]]
  end.
  { unfold kp. rewrite keygen_modulus. unfold oaep_overhead.
    unfold arrayBufferToBase64. rewrite Base64Facts.from_to_base64.
    rewrite length_map, length_seq. lia. }
  erewrite bind_ok by exact Hrun.
  erewrite bind_ok.
  2: { eapply rsaDecrypt_generated; [exact Hc | reflexivity | reflexivity]. }
  unfold arrayBufferToBase64 at 2. rewrite Base64Facts.from_to_base64.
  rewrite symDecrypt_run.
  - unfold arrayBufferToBase64. rewrite !Base64Facts.from_to_base64.
    rewrite CbcFacts.aes_cbc_decrypt_encrypt. cbn [fst].
    now rewrite Utf8Facts.TextDecoder_decode_encode.
  - unfold arrayBufferToBase64. rewrite Base64Facts.from_to_base64.
    reflexivity.
  - reflexivity.
Qed.

End WithContract.
End WithRsa.
(** *** Concrete runs *)

Import SimRsa.

Lemma X2_witness :
  importSymKey (js "AAAA") zeros = (Err KeyFormatError, zeros)
  /\ symDecrypt {| iv := repeat x00 16 |} (js "AAAA")
       (js "bTAVGFeQ1lWSAHEe2zmrNQ==") zeros
     = (Err KeyFormatError, zeros).
Proof.
  apply (@X2_bad_key_length provider {| iv := repeat x00 16 |} (js "AAAA")
           (js "bTAVGFeQ1lWSAHEe2zmrNQ==") zeros).
  vm_compute; reflexivity.
Defined.

Lemma X3_witness :
  exists kp w' pubStr prvStr,
    generateRsaKeyPair counting = (Ok kp, w')
    /\ exportPubKey (publicKey kp) w' = (Ok pubStr, w')
    /\ exportPrvKey (Some (privateKey kp)) w' = (Ok (Some prvStr), w')
    /\ importPubKey pubStr w' = (Ok (publicKey kp), w')
    /\ importPrvKey prvStr w' = (Ok (privateKey kp), w')
    /\ usages (publicKey kp) = [Encrypt]
    /\ usages (privateKey kp) = [Decrypt].
Proof. exact (@X3_rsa_keys_reimport provider sim_contract counting). Defined.

Lemma X6_witness :
  Utf8.code_units_ok [0xD800; 0x61] = true
  /\ fst (@sym_round_trip provider [0xD800; 0x61] counting)
     = Ok [0xFFFD; 0x61].
Proof.
  split; [reflexivity|].
  exact (@X6_sym_round_trip_any_text provider [0xD800; 0x61] counting eq_refl).
Defined.

Lemma X7_witness :
  fst (symEncrypt {| iv := repeat x00 16 |}
         {| material := @AesSecret provider (repeat x00 32);
            extractable := true; usages := [Encrypt; Decrypt] |}
         (js "a") zeros)
  = fst (symEncrypt {| iv := repeat x00 16 |}
           {| material := @AesSecret provider (repeat x00 32);
              extractable := true; usages := [Encrypt; Decrypt] |}
           (js "b") counting)
  <-> js "a" = js "b".
Proof.
  apply (@X7_equal_ciphertexts provider {| iv := repeat x00 16 |}
           {| material := @AesSecret provider (repeat x00 32);
              extractable := true; usages := [Encrypt; Decrypt] |}
           (repeat x00 32) (js "a") (js "b") zeros counting);
    vm_compute; reflexivity.
Defined.

Lemma X8_witness :
  exists c1 c2,
    symEncrypt {| iv := repeat x00 16 |}
      {| material := @AesSecret provider (repeat x00 32);
         extractable := true; usages := [Encrypt; Decrypt] |}
      (js "0123456789abcdef, yes") zeros = (Ok c1, zeros)
    /\ symEncrypt {| iv := repeat x00 16 |}
         {| material := @AesSecret provider (repeat x00 32);
            extractable := true; usages := [Encrypt; Decrypt] |}
         (js "0123456789abcdef, no") zeros = (Ok c2, zeros)
    /\ firstn (16 * 1) (Base64.from_base64 c1)
       = firstn (16 * 1) (Base64.from_base64 c2).
Proof.
  apply (@X8_common_prefix provider {| iv := repeat x00 16 |}
           {| material := @AesSecret provider (repeat x00 32);
              extractable := true; usages := [Encrypt; Decrypt] |}
           (repeat x00 32) (js "0123456789abcdef, yes")
           (js "0123456789abcdef, no") 1 zeros);
    first [ vm_compute; reflexivity | vm_compute; lia ].
Defined.

Lemma X9_witness :
  fst (@hybrid_round_trip provider (js "secret message") counting)
  = Ok (js "secret message").
Proof.
  apply (@X9_hybrid_round_trip provider sim_contract);
    vm_compute; reflexivity.
Defined.

Lemma X10_witness :
  fst (@rsa_round_trip_text provider (js "SGV sbG8") counting)
  = Ok (js "SGVsbG8=").
Proof.
  apply (@X10_rsa_round_trip_canonical provider sim_contract (js "SGV sbG8")
           counting).
  vm_compute; lia.
Defined.

(** *** Texts with code units above U+00FF *)

(** Twenty-one 'A' and U+0141 decode to sixteen bytes, a 128-bit key. *)
Lemma importSymKey_low_byte :
  fst (@importSymKey provider (repeat 65 21 ++ [0x141]) zeros)
  = Ok {| material := AesSecret (repeat x00 16); extractable := true;
          usages := [Encrypt; Decrypt] |}.
Proof. vm_compute. reflexivity. Qed.

(** U+0174 is read as 't': the text decodes to the sixteen bytes of a
    ciphertext of "a". *)
Lemma symDecrypt_low_byte :
  fst (@symDecrypt provider {| iv := repeat x00 16 |}
         (js "AAAAAAAAAAAAAAAAAAAAAAAAAAAAAAAAAAAAAAAAAAA=")
         (0x174 :: js "KXpivaBCoO99SsUroIsNw==") zeros)
  = Ok (js "a").
Proof. vm_compute. reflexivity. Qed.

(** U+0141 is read as 'A' and comes back as 'A'. *)
Lemma rsa_round_trip_low_byte :
  fst (@rsa_round_trip_text provider (js "SGVsbG8" ++ [0x141]) counting)
  = Ok (js "SGVsbG8A").
Proof. vm_compute. reflexivity. Qed.

(** U+D83D is read as '=': nothing is decoded after it, and the empty
    payload is encrypted. *)
Lemma rsaEncrypt_low_byte :
  fst (@rsa_encrypt_fresh provider (0xD83D :: repeat 65 256) counting)
  = Ok (js "CA==").
Proof. vm_compute. reflexivity. Qed.

Lemma X11_witness :
  fst (@symDecrypt provider {| iv := repeat x00 16 |}
         (js "AAAAAAAAAAAAAAAAAAAAAAAAAAAAAAAAAAAAAAAAAAA=") [] zeros)
  = Err CryptoOperationError.
Proof.
  apply (@X11_ciphertext_length provider {| iv := repeat x00 16 |}
           (js "AAAAAAAAAAAAAAAAAAAAAAAAAAAAAAAAAAAAAAAAAAA=") [] zeros).
  - vm_compute; reflexivity.
  - vm_compute; reflexivity.
  - left. vm_compute; reflexivity.
Defined.

Lemma X12_witness :
  fst ((c <- symEncrypt {| iv := repeat x00 16 |}
               {| material := @AesSecret provider (repeat x00 32);
                  extractable := true; usages := [Encrypt; Decrypt] |}
               (js "0123456789abcdef") ;;
        ks <- exportSymKey
                {| material := @AesSecret provider (repeat x00 32);
                   extractable := true; usages := [Encrypt; Decrypt] |} ;;
        symDecrypt {| iv := hex "01000000000000000000000000000000" |} ks c)
         zeros)
  = Ok (js "1123456789abcdef").
Proof.
  rewrite (@X12_wrong_iv_not_detected provider {| iv := repeat x00 16 |}
             {| iv := hex "01000000000000000000000000000000" |}
             {| material := @AesSecret provider (repeat x00 32);
                extractable := true; usages := [Encrypt; Decrypt] |}
             (repeat x00 32) (js "0123456789abcdef") zeros);
    first [ vm_compute; reflexivity | vm_compute; lia ].
Defined.

End CryptoMore.
